(** * IntelliSOC backend (JSON-file storage): session / attempt / reputation ledger

    A shallow embedding of the Express server of the repository
    (the "No Database Version") and of the properties its specification
    states about it.

    Conventions of the embedding.
    - JavaScript numbers that hold counters, identifiers and millisecond
      instants are modelled by [Z]; all of them stay far below 2^53, where
      the arithmetic of doubles is exact.
    - [new Date().toISOString()] and [new Date(s)] are inverse to each other
      on the instants the server produces, so a stored ISO string is
      represented by the instant it denotes (milliseconds since the epoch).
    - A JavaScript string is represented by its UTF-8 text, a [string] of
      bytes; [js_length] gives its [length], which counts UTF-16 code
      units.
    - A property that may be missing is an [option]; [null] is not told
      apart from [undefined] (the pages of the repository send neither for
      the identifiers that the server compares with [===]), so that a
      statement about [===] on a session identifier is made for strings.
    - Requests are typed: a field holds a value of the type the handler
      expects, or is missing.
    - The asynchronous file helpers, the clock and the random generator are
      operations of a small free monad [Prog]; [exec] runs a program alone,
      [serve] interleaves the programs of several requests at their
      [await] points. *)

From stdpp Require Import base numbers list strings gmap.
From Stdlib Require Import Ascii.

Local Open Scope string_scope.
Local Open Scope Z_scope.
Local Open Scope list_scope.

(* ===================================================================== *)
(** * Data model *)
(* ===================================================================== *)

(** Instants, in milliseconds since the epoch. *)
Definition Instant := Z.

Inductive LoginResult := success | failure.

Inductive AttemptStatus := SUCCESS | FAILURE.

Inductive FailureReason := user_not_found | invalid_password.

Global Instance LoginResult_eq_dec : EqDecision LoginResult.
Proof. solve_decision. Defined.
Global Instance AttemptStatus_eq_dec : EqDecision AttemptStatus.
Proof. solve_decision. Defined.
Global Instance FailureReason_eq_dec : EqDecision FailureReason.
Proof. solve_decision. Defined.

(** Entries of users.json (the fields the server reads). *)
Module User.
Record t := mk {
  user_id : Z;
  username : string;
  password : string }.
End User.

(** Entries of sessions.json. *)
Module Session.
Record t := mk {
  session_id : option string;
  user_id : Z;
  session_token : string;
  device_fingerprint : option string;
  ip_address : string;
  user_agent : option string;
  created_at : Instant;
  expires_at : Instant;
  is_active : bool }.
End Session.

(** Entries of login_attempts.json. *)
Module Attempt.
Record t := mk {
  attempt_id : Z;
  timestamp : Instant;
  username : string;
  user_id : option Z;
  session_id : option string;
  ip_address : string;
  device_fingerprint : option string;
  user_agent : option string;
  password_length : Z;
  remember_me : option bool;
  attempt_status : AttemptStatus;
  failure_reason : option FailureReason }.
End Attempt.

(** Entries of ip_reputation.json. *)
Module IPRep.
Record t := mk {
  ip_address : string;
  reputation_score : Z;
  total_logins : Z;
  failed_logins : Z;
  successful_logins : Z;
  suspicious_activities : Z;
  first_seen : Instant;
  last_seen : Instant;
  is_blocked : bool }.
End IPRep.

(** The [timestamp] of an event is the client's value when it is truthy and
    the server clock otherwise. *)
Inductive EventTime :=
| ClientTime (s : string)
| ServerTime (t : Instant).

(** Entries of event_logs.json.  Opaque payloads ([event_data],
    [browser_info], ...) are kept as their JSON text. *)
Module EventLog.
Record t := mk {
  log_id : Z;
  timestamp : EventTime;
  session_id : option string;
  user_id : option Z;
  event_type : option string;
  event_data : string;
  ip_address : string;
  device_fingerprint : option string;
  browser_info : string;
  screen_info : string;
  timezone_info : string;
  referrer : option string;
  current_url : option string }.
End EventLog.

Global Instance Session_eq_dec : EqDecision Session.t.
Proof. solve_decision. Defined.
Global Instance Attempt_eq_dec : EqDecision Attempt.t.
Proof. solve_decision. Defined.
Global Instance IPRep_eq_dec : EqDecision IPRep.t.
Proof. solve_decision. Defined.

(* ===================================================================== *)
(** * Storage, clock and randomness as effects *)
(* ===================================================================== *)

(** Data Storage Paths. *)
Inductive File :=
| USERS_FILE
| SESSIONS_FILE
| EVENT_LOGS_FILE
| LOGIN_ATTEMPTS_FILE
| IP_REPUTATION_FILE.

Definition record_of (f : File) : Type :=
  match f with
  | USERS_FILE => User.t
  | SESSIONS_FILE => Session.t
  | EVENT_LOGS_FILE => EventLog.t
  | LOGIN_ATTEMPTS_FILE => Attempt.t
  | IP_REPUTATION_FILE => IPRep.t
  end.

(** The content of the data directory: one JSON array per file. *)
Record Disk := mkDisk {
  users : list User.t;
  sessions : list Session.t;
  event_logs : list EventLog.t;
  login_attempts : list Attempt.t;
  ip_reputation : list IPRep.t }.

Definition disk_get (f : File) (d : Disk) : list (record_of f) :=
  match f with
  | USERS_FILE => users d
  | SESSIONS_FILE => sessions d
  | EVENT_LOGS_FILE => event_logs d
  | LOGIN_ATTEMPTS_FILE => login_attempts d
  | IP_REPUTATION_FILE => ip_reputation d
  end.

Definition disk_set (f : File) : list (record_of f) → Disk → Disk :=
  match f with
  | USERS_FILE => λ c d,
      mkDisk c (sessions d) (event_logs d) (login_attempts d) (ip_reputation d)
  | SESSIONS_FILE => λ c d,
      mkDisk (users d) c (event_logs d) (login_attempts d) (ip_reputation d)
  | EVENT_LOGS_FILE => λ c d,
      mkDisk (users d) (sessions d) c (login_attempts d) (ip_reputation d)
  | LOGIN_ATTEMPTS_FILE => λ c d,
      mkDisk (users d) (sessions d) (event_logs d) c (ip_reputation d)
  | IP_REPUTATION_FILE => λ c d,
      mkDisk (users d) (sessions d) (event_logs d) (login_attempts d) c
  end.

(** The operations a request handler performs on its environment.
    [ReadFile] is [fs.readFile] followed by [JSON.parse] ([None] when either
    throws); [WriteFile] is [fs.writeFile] of the serialised array ([false]
    when it throws); [Now] is a reading of the system clock ([Date.now()],
    [new Date()]); [RandomBytes] is [crypto.randomBytes(32).toString('hex')]. *)
Inductive Op : Type → Type :=
| ReadFile (f : File) : Op (option (list (record_of f)))
| WriteFile (f : File) (data : list (record_of f)) : Op bool
| Now : Op Instant
| RandomBytes : Op string.

(** The two file operations are the ones a handler awaits. *)
Definition is_await {X} (op : Op X) : bool :=
  match op with
  | ReadFile _ | WriteFile _ _ => true
  | Now | RandomBytes => false
  end.

Inductive Prog (A : Type) : Type :=
| Ret (a : A)
| Vis {X : Type} (op : Op X) (k : X → Prog A).
Arguments Ret {A} a.
Arguments Vis {A X} op k.

Fixpoint Prog_bind {A B} (k : A → Prog B) (p : Prog A) : Prog B :=
  match p with
  | Ret a => k a
  | Vis op h => Vis op (λ x, Prog_bind k (h x))
  end.

Global Instance Prog_ret : MRet Prog := @Ret.
Global Instance Prog_mbind : MBind Prog := @Prog_bind.

Definition trigger {X} (op : Op X) : Prog X := Vis op Ret.

(** The environment of the server: the data directory, and the outcomes
    the environment will give to the successive file-system calls, clock
    readings and random draws. *)
Record World := mkWorld {
  disk : Disk;
  fs_ok : nat → bool;
  fs_calls : nat;
  clock : nat → Instant;
  clock_reads : nat;
  entropy : nat → string;
  draws : nat }.

Definition handle {X} (op : Op X) (w : World) : X * World :=
  match op in Op X return X * World with
  | ReadFile f =>
      (if fs_ok w (fs_calls w) then Some (disk_get f (disk w)) else None,
       mkWorld (disk w) (fs_ok w) (S (fs_calls w))
               (clock w) (clock_reads w) (entropy w) (draws w))
  | WriteFile f data =>
      (fs_ok w (fs_calls w),
       mkWorld (if fs_ok w (fs_calls w) then disk_set f data (disk w) else disk w)
               (fs_ok w) (S (fs_calls w))
               (clock w) (clock_reads w) (entropy w) (draws w))
  | Now =>
      (clock w (clock_reads w),
       mkWorld (disk w) (fs_ok w) (fs_calls w)
               (clock w) (S (clock_reads w)) (entropy w) (draws w))
  | RandomBytes =>
      (entropy w (draws w),
       mkWorld (disk w) (fs_ok w) (fs_calls w)
               (clock w) (clock_reads w) (entropy w) (S (draws w)))
  end.

(** A program run alone, from start to end. *)
Fixpoint exec {A} (p : Prog A) (w : World) : A * World :=
  match p with
  | Ret a => (a, w)
  | Vis op k => let r := handle op w in exec (k r.1) r.2
  end.

(* ===================================================================== *)
(** * Helper Functions *)
(* ===================================================================== *)

(** Read JSON file: an unreadable or unparsable file reads as []. *)
Definition readJSON (f : File) : Prog (list (record_of f)) :=
  r ← trigger (ReadFile f);
  mret (match r with Some data => data | None => [] end).

(** Write JSON file: a failed write is reported by [false]. *)
Definition writeJSON (f : File) (data : list (record_of f)) : Prog bool :=
  ok ← trigger (WriteFile f data);
  mret ok.

(** Generate session token. *)
Definition generateSessionToken : Prog string := trigger RandomBytes.

(** [Array.prototype.findIndex]: the first index whose element satisfies
    the predicate; [None] stands for -1. *)
Fixpoint findIndex {A} (p : A → bool) (l : list A) : option nat :=
  match l with
  | [] => None
  | x :: l' => if p x then Some 0%nat else S <$> findIndex p l'
  end.

(** The update of an existing reputation record (the branch
    [ipIndex !== -1]). *)
Definition bump (result : LoginResult) (now : Instant) (ip : IPRep.t) : IPRep.t :=
  let total := IPRep.total_logins ip + 1 in
  match result with
  | success =>
      IPRep.mk (IPRep.ip_address ip)
               (Z.min (IPRep.reputation_score ip + 1) 100)
               total
               (IPRep.failed_logins ip)
               (IPRep.successful_logins ip + 1)
               (IPRep.suspicious_activities ip)
               (IPRep.first_seen ip) now (IPRep.is_blocked ip)
  | failure =>
      IPRep.mk (IPRep.ip_address ip)
               (Z.max (IPRep.reputation_score ip - 5) 0)
               total
               (IPRep.failed_logins ip + 1)
               (IPRep.successful_logins ip)
               (IPRep.suspicious_activities ip + 1)
               (IPRep.first_seen ip) now (IPRep.is_blocked ip)
  end.

(** The record pushed for an address seen for the first time; the two
    dates of the object literal are two readings of the clock. *)
Definition fresh (ipAddress : string) (result : LoginResult)
    (seen1 seen2 : Instant) : IPRep.t :=
  let initialScore := match result with success => 95 | failure => 90 end in
  IPRep.mk ipAddress initialScore 1
           (match result with success => 0 | failure => 1 end)
           (match result with success => 1 | failure => 0 end)
           (match result with success => 0 | failure => 1 end)
           seen1 seen2 false.

Definition same_ip (ipAddress : string) (ip : IPRep.t) : bool :=
  bool_decide (IPRep.ip_address ip = ipAddress).

(** Update IP reputation. *)
Definition updateIPReputation (ipAddress : string) (result : LoginResult)
    : Prog unit :=
  ipReputations ← readJSON IP_REPUTATION_FILE;
  ipReputations ←
    match findIndex (same_ip ipAddress) ipReputations with
    | Some ipIndex =>
        match ipReputations !! ipIndex with
        | Some ip =>
            now ← trigger Now;
            mret (<[ipIndex := bump result now ip]> ipReputations)
        | None => mret ipReputations (* no such case: the index is in range *)
        end
    | None =>
        seen1 ← trigger Now;
        seen2 ← trigger Now;
        mret (ipReputations ++ [fresh ipAddress result seen1 seen2])
    end;
  _ ← writeJSON IP_REPUTATION_FILE ipReputations;
  mret ().

(* ===================================================================== *)
(** * Requests and responses *)
(* ===================================================================== *)

(** [deviceInfo.browser]: the user agent the login handler reads, and the
    JSON text of the whole object, which the event handlers store. *)
Module Browser.
Record t := mk {
  userAgent : option string;
  json : string }.
End Browser.

Module DeviceInfo.
Record t := mk {
  fingerprint : option string;
  browser : option Browser.t;
  screen : option string;
  timezone : option string;
  referrer : option string;
  currentUrl : option string }.
End DeviceInfo.

(** Body of POST /api/auth/login. *)
Module LoginBody.
Record t := mk {
  username : option string;
  password : option string;
  deviceInfo : option DeviceInfo.t;
  sessionId : option string;
  rememberMe : option bool }.
End LoginBody.

(** Body of POST /api/log/event, and shape of the entries of a batch.
    [eventData] is the JSON text of a truthy payload. *)
Module EventInput.
Record t := mk {
  timestamp : option string;
  sessionId : option string;
  eventType : option string;
  eventData : option string;
  deviceInfo : option DeviceInfo.t }.
End EventInput.

(** An entry of the [events] array of a batch.  Destructuring [null] throws
    a TypeError; any other JSON value is destructured, a value without the
    properties being an object whose fields are all undefined. *)
Inductive EventJSON :=
| JNull
| JValue (e : EventInput.t).

Record Bucket := mkBucket {
  count : nat;
  unique_ips : nat;
  unique_users : nat }.

Record Stats := mkStats {
  stats_SUCCESS : Bucket;
  stats_FAILURE : Bucket }.

Inductive Data :=
| Message (message : string)
| InvalidCredentials (message : string) (remainingAttempts : Z)
| LoginData (userId : Z) (username : string) (sessionToken : string)
            (expiresAt : Instant) (sessionId : option string)
| EventData (logId : Z) (eventType : option string) (timestamp : EventTime)
| BatchData (eventsLogged failedEvents : Z)
| StatsData (stats : Stats)
| IPData (ipData : IPRep.t).

(** [res.status(code).json({..., timestamp})]; [res.json] alone is 200.
    The [catch] block of a handler answers 500 when the body of the handler
    throws.  [readJSON] and [writeJSON] catch the errors of the file system
    themselves, and with the typed requests of this embedding the only
    statement that throws is the destructuring of a null entry of a batch,
    which the [try] of the loop catches. *)
Record Response := mkResponse {
  status_code : Z;
  data : Data;
  sent_at : Instant }.

Definition respond (code : Z) (d : Data) : Prog Response :=
  timestamp ← trigger Now;
  mret (mkResponse code d timestamp).

(** A string is truthy when it is defined and not empty. *)
Definition truthy (s : option string) : bool :=
  match s with
  | Some s => negb (bool_decide (s = ""))
  | None => false
  end.

(** [s.length]: the number of UTF-16 code units of [s].  In the UTF-8 text
    of [s] a byte 0xxxxxxx, 110xxxxx or 1110xxxx starts a character of one
    code unit, a byte 11110xxx starts a character of two (a surrogate
    pair), and a byte 10xxxxxx continues a character. *)
Definition utf16_units (c : ascii) : Z :=
  match c with
  | Ascii _ _ _ _ b4 b5 b6 b7 =>
      if negb b7 then 1
      else if negb b6 then 0
      else if b5 && b4 then 2
      else 1
  end.

Fixpoint js_length (s : string) : Z :=
  match s with
  | EmptyString => 0
  | String c s => utf16_units c + js_length s
  end.

(** [x?.user_id || null]: a missing record and the identifier 0 both give
    null. *)
Definition or_null (x : option Z) : option Z :=
  match x with
  | Some v => if bool_decide (v = 0) then None else Some v
  | None => None
  end.

(** [deviceInfo?.fingerprint] and [deviceInfo?.browser?.userAgent]. *)
Definition fingerprint_of (deviceInfo : option DeviceInfo.t) : option string :=
  deviceInfo ≫= DeviceInfo.fingerprint.

Definition userAgent_of (deviceInfo : option DeviceInfo.t) : option string :=
  (deviceInfo ≫= DeviceInfo.browser) ≫= Browser.userAgent.

(* ===================================================================== *)
(** * Authentication Endpoints *)
(* ===================================================================== *)

(** [sessions.find(s => s.session_id === sessionId)]. *)
Definition find_session (sessions : list Session.t) (sessionId : option string)
    : option Session.t :=
  List.find (λ s, bool_decide (Session.session_id s = sessionId)) sessions.

Definition find_user (users : list User.t) (username : string) : option User.t :=
  List.find (λ u, bool_decide (User.username u = username)) users.

(** The attempt record built before the password is verified, completed
    with the status and the failure reason. *)
Definition attemptRecord (loginAttempts : list Attempt.t) (timestamp : Instant)
    (username password : string) (user : option User.t) (ipAddress : string)
    (body : LoginBody.t) (status : AttemptStatus)
    (reason : option FailureReason) : Attempt.t :=
  Attempt.mk (Z.of_nat (length loginAttempts) + 1)
             timestamp
             username
             (or_null (User.user_id <$> user))
             (LoginBody.sessionId body)
             ipAddress
             (fingerprint_of (LoginBody.deviceInfo body))
             (userAgent_of (LoginBody.deviceInfo body))
             (js_length password)
             (LoginBody.rememberMe body)
             status reason.

(** The session pushed by a successful login. *)
Definition new_session (user : User.t) (sessionToken : string)
    (ipAddress : string) (body : LoginBody.t)
    (created_at expiresAt : Instant) : Session.t :=
  Session.mk (LoginBody.sessionId body)
             (User.user_id user)
             sessionToken
             (fingerprint_of (LoginBody.deviceInfo body))
             ipAddress
             (userAgent_of (LoginBody.deviceInfo body))
             created_at expiresAt true.

(** The part of the login handler that follows the validation of the input. *)
Definition login_checked (ipAddress : string) (body : LoginBody.t)
    (username password : string) : Prog Response :=
  users ← readJSON USERS_FILE;
  let user := find_user users username in
  loginAttempts ← readJSON LOGIN_ATTEMPTS_FILE;
  timestamp ← trigger Now;
  let record :=
    attemptRecord loginAttempts timestamp username password user ipAddress body in
  let failed (reason : FailureReason) : Prog Response :=
    _ ← writeJSON LOGIN_ATTEMPTS_FILE
          (loginAttempts ++ [record FAILURE (Some reason)]);
    _ ← updateIPReputation ipAddress failure;
    respond 401 (InvalidCredentials "Invalid credentials" 2) in
  match user with
  | None => failed user_not_found
  | Some user =>
      if bool_decide (User.password user = password) then
        _ ← writeJSON LOGIN_ATTEMPTS_FILE
              (loginAttempts ++ [record SUCCESS None]);
        sessionToken ← generateSessionToken;
        now ← trigger Now;
        let expiresAt := now + 24 * 60 * 60 * 1000 in
        sessions ← readJSON SESSIONS_FILE;
        created_at ← trigger Now;
        _ ← writeJSON SESSIONS_FILE
              (sessions ++
               [new_session user sessionToken ipAddress body created_at expiresAt]);
        _ ← updateIPReputation ipAddress success;
        respond 200 (LoginData (User.user_id user) (User.username user)
                               sessionToken expiresAt (LoginBody.sessionId body))
      else failed invalid_password
  end.

(** POST /api/auth/login; [ipAddress] is the result of [getClientIP(req)]. *)
Definition login (ipAddress : string) (body : LoginBody.t) : Prog Response :=
  match LoginBody.username body, LoginBody.password body with
  | Some username, Some password =>
      if truthy (Some username) && truthy (Some password)
      then login_checked ipAddress body username password
      else respond 400 (Message "Username and password required")
  | _, _ => respond 400 (Message "Username and password required")
  end.

(* ===================================================================== *)
(** * Logging Endpoints *)
(* ===================================================================== *)

(** [timestamp || new Date().toISOString()]. *)
Definition event_time (timestamp : option string) : Prog EventTime :=
  match timestamp with
  | Some s =>
      if truthy (Some s) then mret (ClientTime s)
      else t ← trigger Now; mret (ServerTime t)
  | None => t ← trigger Now; mret (ServerTime t)
  end.

(** [x || {}] on an opaque payload. *)
Definition or_empty (x : option string) : string := default "{}" x.

Definition logEntry (log_id : Z) (timestamp : EventTime) (userId : option Z)
    (ipAddress : string) (e : EventInput.t) : EventLog.t :=
  let deviceInfo := EventInput.deviceInfo e in
  EventLog.mk log_id timestamp
              (EventInput.sessionId e)
              userId
              (EventInput.eventType e)
              (or_empty (EventInput.eventData e))
              ipAddress
              (fingerprint_of deviceInfo)
              (or_empty (Browser.json <$> (deviceInfo ≫= DeviceInfo.browser)))
              (or_empty (deviceInfo ≫= DeviceInfo.screen))
              (or_empty (deviceInfo ≫= DeviceInfo.timezone))
              (deviceInfo ≫= DeviceInfo.referrer)
              (deviceInfo ≫= DeviceInfo.currentUrl).

(** Get user_id from session. *)
Definition userId_of (sessions : list Session.t) (sessionId : option string)
    : option Z :=
  or_null (Session.user_id <$> find_session sessions sessionId).

(** POST /api/log/event. *)
Definition log_event (ipAddress : string) (body : EventInput.t) : Prog Response :=
  sessions ← readJSON SESSIONS_FILE;
  let userId := userId_of sessions (EventInput.sessionId body) in
  eventLogs ← readJSON EVENT_LOGS_FILE;
  timestamp ← event_time (EventInput.timestamp body);
  let entry :=
    logEntry (Z.of_nat (length eventLogs) + 1) timestamp userId ipAddress body in
  _ ← writeJSON EVENT_LOGS_FILE (eventLogs ++ [entry]);
  respond 201 (EventData (EventLog.log_id entry)
                         (EventInput.eventType body)
                         (EventLog.timestamp entry)).

(** The state of the loop over the events of a batch: the array
    [eventLogs], which [push] extends in place, and the two counters
    [loggedCount] and [failedCount]. *)
Record BatchState := mkBatchState {
  st_eventLogs : list EventLog.t;
  st_loggedCount : Z;
  st_failedCount : Z }.

(** [for (const event of events) { try { ... } catch { failedCount++ } }]. *)
Fixpoint batch_loop (ipAddress : string) (sessions : list Session.t)
    (events : list EventJSON) (st : BatchState) : Prog BatchState :=
  match events with
  | [] => mret st
  | JNull :: events =>
      batch_loop ipAddress sessions events
        (mkBatchState (st_eventLogs st) (st_loggedCount st)
                      (st_failedCount st + 1))
  | JValue event :: events =>
      let userId := userId_of sessions (EventInput.sessionId event) in
      timestamp ← event_time (EventInput.timestamp event);
      let entry :=
        logEntry (Z.of_nat (length (st_eventLogs st)) + st_loggedCount st + 1)
                 timestamp userId ipAddress event in
      batch_loop ipAddress sessions events
        (mkBatchState (st_eventLogs st ++ [entry]) (st_loggedCount st + 1)
                      (st_failedCount st))
  end.

(** POST /api/log/batch; [None] is a body without a truthy [events]. *)
Definition log_batch (ipAddress : string) (events : option (list EventJSON))
    : Prog Response :=
  match events with
  | None | Some [] => respond 400 (Message "No events provided")
  | Some events =>
      eventLogs ← readJSON EVENT_LOGS_FILE;
      sessions ← readJSON SESSIONS_FILE;
      st ← batch_loop ipAddress sessions events (mkBatchState eventLogs 0 0);
      _ ← writeJSON EVENT_LOGS_FILE (st_eventLogs st);
      respond 201 (BatchData (st_loggedCount st) (st_failedCount st))
  end.

(* ===================================================================== *)
(** * Analytics Endpoints *)
(* ===================================================================== *)

(** Calculate time threshold: the [switch] over [timeRange], whose default
    is '24h'. *)
Definition hoursAgo (timeRange : option string) : Z :=
  match timeRange with
  | None => 24
  | Some r =>
      if bool_decide (r = "1h") then 1
      else if bool_decide (r = "24h") then 24
      else if bool_decide (r = "7d") then 168
      else 24
  end.

Definition threshold (now : Instant) (timeRange : option string) : Instant :=
  now - hoursAgo timeRange * 60 * 60 * 1000.

(** Filter recent attempts. *)
Definition recentAttempts (now : Instant) (timeRange : option string)
    (loginAttempts : list Attempt.t) : list Attempt.t :=
  filter (λ attempt, threshold now timeRange < Attempt.timestamp attempt)
         loginAttempts.

Definition with_status (status : AttemptStatus) (l : list Attempt.t)
    : list Attempt.t :=
  filter (λ a, Attempt.attempt_status a = status) l.

(** [new Set(xs).size]. *)
Definition distinct (xs : list string) : nat :=
  size (list_to_set xs : gset string).

Definition bucket (status : AttemptStatus) (recent : list Attempt.t) : Bucket :=
  mkBucket (length (with_status status recent))
           (distinct (Attempt.ip_address <$> with_status status recent))
           (distinct (Attempt.username <$> with_status status recent)).

(** Calculate stats. *)
Definition calc_stats (recent : list Attempt.t) : Stats :=
  mkStats (bucket SUCCESS recent) (bucket FAILURE recent).

(** GET /api/analytics/login-stats?timeRange=... *)
Definition login_stats (timeRange : option string) : Prog Response :=
  loginAttempts ← readJSON LOGIN_ATTEMPTS_FILE;
  now ← trigger Now;
  respond 200 (StatsData (calc_stats (recentAttempts now timeRange loginAttempts))).

(** GET /api/analytics/ip-reputation/:ip *)
Definition ip_reputation_of (ip : string) : Prog Response :=
  ipReputations ← readJSON IP_REPUTATION_FILE;
  match List.find (same_ip ip) ipReputations with
  | None => respond 404 (Message "IP not found")
  | Some ipData => respond 200 (IPData ipData)
  end.

(* ===================================================================== *)
(** * Concurrent requests *)
(* ===================================================================== *)

(** Node runs a handler until it awaits a file operation, and resumes it,
    in a later turn of the event loop, when the operation has completed.
    [settle] runs the synchronous code of a handler up to its next [await];
    [resume] completes the awaited operation and runs the continuation. *)
Fixpoint settle {A} (p : Prog A) (w : World) : Prog A * World :=
  match p with
  | Ret a => (Ret a, w)
  | Vis op k =>
      if is_await op then (Vis op k, w)
      else let r := handle op w in settle (k r.1) r.2
  end.

Definition resume {A} (p : Prog A) (w : World) : Prog A * World :=
  match p with
  | Ret a => (Ret a, w)
  | Vis op k => let r := handle op w in settle (k r.1) r.2
  end.

(** The requests in flight, in the order of their arrival. *)
Fixpoint start_all {A} (pool : list (Prog A)) (w : World)
    : list (Prog A) * World :=
  match pool with
  | [] => ([], w)
  | p :: pool =>
      let r := settle p w in
      let rs := start_all pool r.2 in
      (r.1 :: rs.1, rs.2)
  end.

(** One turn of the event loop: the pending operation of request [i]
    completes. *)
Definition turn {A} (i : nat) (pool : list (Prog A)) (w : World)
    : list (Prog A) * World :=
  match pool !! i with
  | Some p => let r := resume p w in (<[i := r.1]> pool, r.2)
  | None => (pool, w)
  end.

Fixpoint run_schedule {A} (schedule : list nat) (pool : list (Prog A))
    (w : World) : list (Prog A) * World :=
  match schedule with
  | [] => (pool, w)
  | i :: schedule => let r := turn i pool w in run_schedule schedule r.1 r.2
  end.

Definition serve {A} (schedule : list nat) (pool : list (Prog A)) (w : World)
    : list (Prog A) * World :=
  let r := start_all pool w in run_schedule schedule r.1 r.2.

(** [n] successive turns of one request. *)
Fixpoint turns {A} (n : nat) (p : Prog A) (w : World) : Prog A * World :=
  match n with
  | O => (p, w)
  | S n => let r := resume p w in turns n r.1 r.2
  end.

(** The answer of a request that has run to its end. *)
Definition finished {A} (p : Prog A) : option A :=
  match p with
  | Ret a => Some a
  | Vis _ _ => None
  end.

(* ===================================================================== *)
(** * Vocabulary of the specification *)
(* ===================================================================== *)

(** A storage on which no file-system call fails. *)
Definition healthy (w : World) : Prop := ∀ n, fs_ok w n = true.

(** The world after one observation, and after a sequence of them. *)
Definition observe (ipAddress : string) (result : LoginResult) (w : World)
    : World :=
  (exec (updateIPReputation ipAddress result) w).2.

Fixpoint observe_all (ipAddress : string) (results : list LoginResult)
    (w : World) : World :=
  match results with
  | [] => w
  | result :: results => observe_all ipAddress results (observe ipAddress result w)
  end.

(** The record of an address, as GET /api/analytics/ip-reputation finds it. *)
Definition lookup_ip (ip : string) (w : World) : option IPRep.t :=
  List.find (same_ip ip) (ip_reputation (disk w)).

(** The invariant of a reputation record. *)
Definition consistent (r : IPRep.t) : Prop :=
  IPRep.total_logins r = IPRep.successful_logins r + IPRep.failed_logins r ∧
  0 ≤ IPRep.reputation_score r ≤ 100.


(** The data directory that [initializeStorage] creates on a first start:
    the three sample users, and an empty array in every other file. *)
Definition initialUsers : list User.t :=
  [ User.mk 1 "admin" "admin123";
    User.mk 2 "user1" "password123";
    User.mk 3 "testuser" "test123" ].

Definition initial_disk : Disk := mkDisk initialUsers [] [] [] [].

(** A first start on which every file-system call succeeds, the clock
    advances by one millisecond from one reading to the next, and the
    random generator gives the same 32 bytes at every draw. *)
Definition ticking (t0 : Instant) : nat → Instant := λ n, t0 + Z.of_nat n.

Definition sample_token : string :=
  "00112233445566778899aabbccddeeff00112233445566778899aabbccddeeff".

Definition first_start : World :=
  mkWorld initial_disk (λ _, true) 0 (ticking 1700000000000) 0
          (λ _, sample_token) 0.

(** The identifier the specification gives to the next login attempt: the
    current maximum [attempt_id] of the collection plus 1, or 1 if the
    collection is empty. *)
Definition spec_next_attempt_id (ledger : list Attempt.t) : Z :=
  match Attempt.attempt_id <$> ledger with
  | [] => 1
  | id :: ids => foldr Z.max id ids + 1
  end.

(** A ledger as the login handler builds it from the empty array: its
    identifiers are 1, 2, ..., n in the order of the records. *)
Definition numbered (ledger : list Attempt.t) : Prop :=
  Attempt.attempt_id <$> ledger = Z.of_nat <$> seq 1 (length ledger).

(** A login input that passes the validation of the handler. *)
Definition validated (body : LoginBody.t) (username password : string) : Prop :=
  LoginBody.username body = Some username ∧
  LoginBody.password body = Some password ∧
  username ≠ "" ∧ password ≠ "".

(** The outcome of the verification of the password. *)
Definition verdict (user : option User.t) (password : string)
    : AttemptStatus * option FailureReason :=
  match user with
  | None => (FAILURE, Some user_not_found)
  | Some user =>
      if bool_decide (User.password user = password) then (SUCCESS, None)
      else (FAILURE, Some invalid_password)
  end.

(** The body of a login request with another value of [rememberMe]. *)
Definition with_rememberMe (rememberMe : option bool) (body : LoginBody.t)
    : LoginBody.t :=
  LoginBody.mk (LoginBody.username body) (LoginBody.password body)
               (LoginBody.deviceInfo body) (LoginBody.sessionId body)
               rememberMe.

(** The login of the sample user admin from a page whose session
    identifier is [sessionId]. *)
Definition admin_login (sessionId : string) (rememberMe : option bool)
    : LoginBody.t :=
  LoginBody.mk (Some "admin") (Some "admin123") None (Some sessionId) rememberMe.

Definition user1_login (sessionId : string) : LoginBody.t :=
  LoginBody.mk (Some "user1") (Some "password123") None (Some sessionId) None.

(** An attempt ledger trimmed by hand to its last record, the seventh
    attempt. *)
Definition trimmed_ledger : list Attempt.t :=
  [ Attempt.mk 7 1699999990000 "admin" (Some 1) (Some "session_a")
               "203.0.113.7" None None 8 None SUCCESS None ].

(** Two login requests in flight at the same time: admin from one address,
    user1 from another. *)
Definition two_logins : list (Prog Response) :=
  [ login "203.0.113.7" (admin_login "session_a" None);
    login "198.51.100.9" (user1_login "session_b") ].

(** The file operations of the two requests complete in alternation: both
    handlers read login_attempts.json before either writes it. *)
Definition alternating : list nat :=
  [0; 1; 0; 1; 0; 1; 0; 1; 0; 1; 0; 1; 0; 1]%nat.

(** Every file operation of the first request completes before the first
    one of the second request. *)
Definition one_after_the_other : list nat :=
  [0; 0; 0; 0; 0; 0; 0; 1; 1; 1; 1; 1; 1; 1]%nat.

(** The session lookup of the specification: the most recently created
    record with the given [session_id] that is active, or none. *)
Definition spec_find_by_session_id (sessions : list Session.t)
    (sessionId : option string) : option Session.t :=
  last (filter (λ s, Session.session_id s = sessionId ∧
                     Session.is_active s = true) sessions).

(** Two successful logins from the same page, which sends the same
    [sessionId] with both: first admin, then user1. *)
Definition after_two_logins_of_one_page : World :=
  (exec (login "203.0.113.7" (user1_login "session_a"))
     (exec (login "203.0.113.7" (admin_login "session_a" None))
           first_start).2).2.

(** One bucket is within another when each of its three numbers is. *)
Definition bucket_le (b1 b2 : Bucket) : Prop :=
  (count b1 ≤ count b2)%nat ∧
  (unique_ips b1 ≤ unique_ips b2)%nat ∧
  (unique_users b1 ≤ unique_users b2)%nat.

(** The statistics in the answer of GET /api/analytics/login-stats. *)
Definition stats_of (timeRange : option string) (w : World) : option Stats :=
  match data (exec (login_stats timeRange) w).1 with
  | StatsData stats => Some stats
  | _ => None
  end.

Global Instance Browser_eq_dec : EqDecision Browser.t.
Proof. solve_decision. Defined.
Global Instance DeviceInfo_eq_dec : EqDecision DeviceInfo.t.
Proof. solve_decision. Defined.
Global Instance EventInput_eq_dec : EqDecision EventInput.t.
Proof. solve_decision. Defined.
Global Instance EventJSON_eq_dec : EqDecision EventJSON.
Proof. solve_decision. Defined.

(** The null entries of a batch, which are the entries on which the
    body of the loop throws, and the inputs that the other entries are
    destructured into, in the order of the batch. *)
Definition null_entries (events : list EventJSON) : list EventJSON :=
  filter (λ event, event = JNull) events.

Definition destructured (events : list EventJSON) : list EventInput.t :=
  omap (λ event, match event with JNull => None | JValue e => Some e end)
       events.

(** The timestamp stored with an event, [now] being the reading of the
    clock: the client's string when it is truthy. *)
Definition stamp (timestamp : option string) (now : Instant) : EventTime :=
  if truthy timestamp then ClientTime (default "" timestamp)
  else ServerTime now.

(** The timestamps of the entries of a batch: an input without a truthy
    timestamp takes the next reading of the clock, [reads] being the number
    of readings made so far. *)
Fixpoint stamps (clock : nat → Instant) (reads : nat)
    (inputs : list EventInput.t) : list EventTime :=
  match inputs with
  | [] => []
  | e :: inputs =>
      stamp (EventInput.timestamp e) (clock reads) ::
      stamps clock
             (if truthy (EventInput.timestamp e) then reads else S reads)
             inputs
  end.

(** [entry] carries what the request gave for the input [e]: the session
    identifier and the event type as they are, the payloads or the empty
    object, the address of the request, and the user of the first stored
    session that has the session identifier of [e], null when there is
    none or when that user is 0. *)
Definition logged_as (ipAddress : string) (sessions : list Session.t)
    (entry : EventLog.t) (e : EventInput.t) : Prop :=
  let deviceInfo := EventInput.deviceInfo e in
  EventLog.session_id entry = EventInput.sessionId e ∧
  EventLog.user_id entry
  = or_null (Session.user_id <$> find_session sessions (EventInput.sessionId e)) ∧
  EventLog.event_type entry = EventInput.eventType e ∧
  EventLog.event_data entry = default "{}" (EventInput.eventData e) ∧
  EventLog.ip_address entry = ipAddress ∧
  EventLog.device_fingerprint entry = deviceInfo ≫= DeviceInfo.fingerprint ∧
  EventLog.browser_info entry
  = default "{}" (Browser.json <$> (deviceInfo ≫= DeviceInfo.browser)) ∧
  EventLog.screen_info entry = default "{}" (deviceInfo ≫= DeviceInfo.screen) ∧
  EventLog.timezone_info entry
  = default "{}" (deviceInfo ≫= DeviceInfo.timezone) ∧
  EventLog.referrer entry = deviceInfo ≫= DeviceInfo.referrer ∧
  EventLog.current_url entry = deviceInfo ≫= DeviceInfo.currentUrl.

(** An entry that the specification counts as malformed: null, or a value
    with none of the properties of an event input, such as the empty
    object, a number or a text. *)
Definition spec_malformed (event : EventJSON) : bool :=
  match event with
  | JNull => true
  | JValue e =>
      bool_decide (e = EventInput.mk None None None None None)
  end.

(** The answer the specification gives to a batch: the entries that are
    not malformed are logged, the malformed ones are counted as failed. *)
Definition spec_batch_data (events : list EventJSON) : Data :=
  BatchData (Z.of_nat (length (filter (λ event, spec_malformed event = false) events)))
            (Z.of_nat (length (filter (λ event, spec_malformed event = true) events))).

(** The identifiers the specification gives to the [k] events logged by a
    batch: m+1, ..., m+k, where m is the current maximum [log_id]. *)
Definition spec_batch_log_ids (ledger : list EventLog.t) (k : nat) : list Z :=
  (λ i, foldr Z.max 0 (EventLog.log_id <$> ledger) + 1 + Z.of_nat i) <$> seq 0 k.

(** A click on the login page. *)
Definition click (sessionId : string) : EventJSON :=
  JValue (EventInput.mk None (Some sessionId) (Some "click") None None).

(** A first start on which the third file-system call fails, and only
    that one. *)
Definition third_call_fails : World :=
  mkWorld initial_disk (λ n, negb (bool_decide (n = 2%nat))) 0
          (ticking 1700000000000) 0 (λ _, sample_token) 0.

(** A first start on which the file-system call number [k], counted from
    0, fails, and only that one. *)
Definition one_call_fails (k : nat) : World :=
  mkWorld initial_disk (λ n, negb (bool_decide (n = k))) 0
          (ticking 1700000000000) 0 (λ _, sample_token) 0.

(** A first start on which the three writes of a successful login (the
    third, fifth and seventh file-system calls) fail, and the reads
    succeed. *)
Definition login_writes_fail : World :=
  mkWorld initial_disk (λ n, negb (bool_decide (n ∈ [2; 4; 6]%nat))) 0
          (ticking 1700000000000) 0 (λ _, sample_token) 0.

(** A key press on the login page. *)
Definition keydown (sessionId : string) : EventInput.t :=
  EventInput.mk None (Some sessionId) (Some "keydown") None None.

(** Login requests handled one after the other. *)
Fixpoint handle_logins (requests : list (string * LoginBody.t)) (w : World)
    : World :=
  match requests with
  | [] => w
  | (ipAddress, body) :: requests =>
      handle_logins requests (exec (login ipAddress body) w).2
  end.

(** The record of an address that has reached the score 100. *)
Definition trusted_address : IPRep.t :=
  IPRep.mk "203.0.113.7" 100 12 0 12 0 1699990000000 1699999990000 false.

(** An entry of a batch that has none of the properties of an event, such
    as the empty object. *)
Definition empty_object : EventJSON :=
  JValue (EventInput.mk None None None None None).

(* ===================================================================== *)
(** * The rest of the server: client address and first start *)
(* ===================================================================== *)

(** What [getClientIP] reads of a request: the header x-forwarded-for and
    the remote address of the connection and of the socket. *)
Module Request.
Record t := mk {
  x_forwarded_for : option string;
  connection_remoteAddress : option string;
  socket_remoteAddress : option string }.
End Request.

(** [s.split(',')[0]]: the text before the first comma. *)
Fixpoint before_comma (s : string) : string :=
  match s with
  | EmptyString => EmptyString
  | String c s' =>
      if bool_decide (c = ","%char) then EmptyString
      else String c (before_comma s')
  end.

(** [a || b] on strings that may be undefined. *)
Definition or_else (a b : option string) : option string :=
  if truthy a then a else b.

(** Get client IP. *)
Definition getClientIP (req : Request.t) : string :=
  default "127.0.0.1"
    (or_else
       (or_else
          (or_else (before_comma <$> Request.x_forwarded_for req)
                   (Request.connection_remoteAddress req))
          (Request.socket_remoteAddress req))
       (Some "127.0.0.1")).

(** The data directory at the start of the server: the directory and each
    of the five files may be missing. *)
Record DataDir := mkDataDir {
  dir_exists : bool;
  users_json : option (list User.t);
  sessions_json : option (list Session.t);
  event_logs_json : option (list EventLog.t);
  login_attempts_json : option (list Attempt.t);
  ip_reputation_json : option (list IPRep.t) }.

Definition dir_get (f : File) (d : DataDir) : option (list (record_of f)) :=
  match f with
  | USERS_FILE => users_json d
  | SESSIONS_FILE => sessions_json d
  | EVENT_LOGS_FILE => event_logs_json d
  | LOGIN_ATTEMPTS_FILE => login_attempts_json d
  | IP_REPUTATION_FILE => ip_reputation_json d
  end.

Definition dir_set (f : File) : list (record_of f) → DataDir → DataDir :=
  match f with
  | USERS_FILE => λ c d,
      mkDataDir (dir_exists d) (Some c) (sessions_json d) (event_logs_json d)
                (login_attempts_json d) (ip_reputation_json d)
  | SESSIONS_FILE => λ c d,
      mkDataDir (dir_exists d) (users_json d) (Some c) (event_logs_json d)
                (login_attempts_json d) (ip_reputation_json d)
  | EVENT_LOGS_FILE => λ c d,
      mkDataDir (dir_exists d) (users_json d) (sessions_json d) (Some c)
                (login_attempts_json d) (ip_reputation_json d)
  | LOGIN_ATTEMPTS_FILE => λ c d,
      mkDataDir (dir_exists d) (users_json d) (sessions_json d)
                (event_logs_json d) (Some c) (ip_reputation_json d)
  | IP_REPUTATION_FILE => λ c d,
      mkDataDir (dir_exists d) (users_json d) (sessions_json d)
                (event_logs_json d) (login_attempts_json d) (Some c)
  end.

(** The file system under [initializeStorage]: the data directory, and the
    outcomes of the successive calls ([false]: the call throws for a reason
    of its own, such as a permission). *)
Record Boot := mkBoot {
  data_dir : DataDir;
  boot_ok : nat → bool;
  boot_calls : nat }.

(** [fs.mkdir(DATA_DIR, { recursive: true })]: no error when the directory
    exists. *)
Definition mkdir (b : Boot) : bool * Boot :=
  let ok := boot_ok b (boot_calls b) in
  (ok,
   mkBoot (if ok
           then mkDataDir true (users_json (data_dir b))
                  (sessions_json (data_dir b)) (event_logs_json (data_dir b))
                  (login_attempts_json (data_dir b))
                  (ip_reputation_json (data_dir b))
           else data_dir b)
          (boot_ok b) (S (boot_calls b))).

(** [fs.access(file)]: throws when the file is missing. *)
Definition access (f : File) (b : Boot) : bool * Boot :=
  (boot_ok b (boot_calls b) && bool_decide (is_Some (dir_get f (data_dir b))),
   mkBoot (data_dir b) (boot_ok b) (S (boot_calls b))).

(** [fs.writeFile(file, JSON.stringify(data, null, 2))]: throws when the
    directory is missing. *)
Definition writeFile (f : File) (data : list (record_of f)) (b : Boot)
    : bool * Boot :=
  let ok := boot_ok b (boot_calls b) && dir_exists (data_dir b) in
  (ok,
   mkBoot (if ok then dir_set f data (data_dir b) else data_dir b)
          (boot_ok b) (S (boot_calls b))).

(** [try { await fs.access(file) } catch { await fs.writeFile(file, data) }];
    the result is [false] when the write throws. *)
Definition ensure_file (f : File) (data : list (record_of f)) (b : Boot)
    : bool * Boot :=
  let r := access f b in
  if r.1 then (true, r.2) else writeFile f data r.2.

(** Initialize other files if they don't exist: the loop stops at the first
    write that throws. *)
Fixpoint ensure_empty (files : list File) (b : Boot) : bool * Boot :=
  match files with
  | [] => (true, b)
  | file :: files =>
      let r := ensure_file file [] b in
      if r.1 then ensure_empty files r.2 else (false, r.2)
  end.

(** Initialize Data Storage; the result tells whether the end of the [try]
    block was reached ('Storage initialized successfully') or an error was
    caught and logged. *)
Definition initializeStorage (b : Boot) : bool * Boot :=
  let r := mkdir b in
  if r.1 then
    let r := ensure_file USERS_FILE initialUsers r.2 in
    if r.1 then
      ensure_empty
        [SESSIONS_FILE; EVENT_LOGS_FILE; LOGIN_ATTEMPTS_FILE; IP_REPUTATION_FILE]
        r.2
    else (false, r.2)
  else (false, r.2).

Global Instance File_eq_dec : EqDecision File.
Proof. solve_decision. Defined.

(** What [initializeStorage] writes in a file that is missing. *)
Definition initial_content (f : File) : list (record_of f) :=
  match f with
  | USERS_FILE => initialUsers
  | SESSIONS_FILE => []
  | EVENT_LOGS_FILE => []
  | LOGIN_ATTEMPTS_FILE => []
  | IP_REPUTATION_FILE => []
  end.

(** A file system on which no call throws for a reason of its own. *)
Definition sound (b : Boot) : Prop := ∀ n, boot_ok b n = true.

(** The data directory read as the server reads it: a missing file reads
    as the empty array. *)
Definition disk_of (d : DataDir) : Disk :=
  mkDisk (default [] (users_json d)) (default [] (sessions_json d))
         (default [] (event_logs_json d)) (default [] (login_attempts_json d))
         (default [] (ip_reputation_json d)).

(** A machine on which the server has never run. *)
Definition no_data_dir : DataDir := mkDataDir false None None None None None.

Definition first_boot : Boot := mkBoot no_data_dir (λ _, true) 0.

(** A data directory left by an earlier run, in which sessions.json was
    deleted. *)
Definition earlier_run : DataDir :=
  mkDataDir true (Some [User.mk 9 "root" "changed"]) None (Some [])
            (Some trimmed_ledger) (Some [trusted_address]).

Definition second_boot : Boot := mkBoot earlier_run (λ _, true) 0.

(* ===================================================================== *)
(** * Vocabulary for the handlers *)
(* ===================================================================== *)

(** The observation that a login reports to the Reputation Engine. *)
Definition outcome (status : AttemptStatus) : LoginResult :=
  match status with
  | SUCCESS => success
  | FAILURE => failure
  end.

(** An event ledger whose identifiers are 1, 2, ..., n in the order of the
    records. *)
Definition numbered_events (ledger : list EventLog.t) : Prop :=
  EventLog.log_id <$> ledger = Z.of_nat <$> seq 1 (length ledger).

(** Single events handled one after the other. *)
Fixpoint handle_events (requests : list (string * EventInput.t)) (w : World)
    : World :=
  match requests with
  | [] => w
  | (ipAddress, body) :: requests =>
      handle_events requests (exec (log_event ipAddress body) w).2
  end.

(** A login input that the handler rejects before it reads any file. *)
Definition rejected (body : LoginBody.t) : Prop :=
  truthy (LoginBody.username body) = false ∨
  truthy (LoginBody.password body) = false.

(** A server whose users.json holds an account with the identifier 0. *)
Definition guest_start : World :=
  mkWorld (mkDisk [User.mk 0 "guest" "guest123"] [] [] [] []) (λ _, true) 0
          (ticking 1700000000000) 0 (λ _, sample_token) 0.

Definition guest_login : LoginBody.t :=
  LoginBody.mk (Some "guest") (Some "guest123") None (Some "session_g") None.

(** A login without a password, and an event whose timestamp is not a
    date. *)
Definition no_password : LoginBody.t :=
  LoginBody.mk (Some "admin") (Some "") None (Some "session_a") (Some true).

Definition undated_event : EventInput.t :=
  EventInput.mk (Some "yesterday") (Some "session_a") (Some "click") None None.

(** The number of failures and of successes among observations. *)
Definition failures (results : list LoginResult) : Z :=
  Z.of_nat (length (filter (λ result, result = failure) results)).

Definition successes (results : list LoginResult) : Z :=
  Z.of_nat (length (filter (λ result, result = success) results)).

(** The statistics of a ledger without recent attempts. *)
Definition no_stats : Stats := mkStats (mkBucket 0 0 0) (mkBucket 0 0 0).

(** A ledger with two attempts of the same user from the same address,
    one of which failed. *)
Definition small_ledger : list Attempt.t :=
  [ Attempt.mk 1 1699999000000 "admin" (Some 1) (Some "session_a")
               "203.0.113.7" None None 5 None FAILURE (Some invalid_password);
    Attempt.mk 2 1699999990000 "admin" (Some 1) (Some "session_a")
               "203.0.113.7" None None 8 None SUCCESS None ].

(* ===================================================================== *)
(** * The login page (login.js) *)
(* ===================================================================== *)

(** [l.push(x); if (l.length > cap) l.shift()]: the statement that the page
    uses for its three bounded histories. *)
Definition push_capped {A} (cap : nat) (x : A) (l : list A) : list A :=
  if decide (cap < length (l ++ [x]))%nat then tail (l ++ [x]) else l ++ [x].

(** Mock Authentication.  The lookup [validCredentials[username]] also
    finds the properties that an object inherits, which are functions and
    objects and are never [===] to a string: for a password that is a
    string only the three own properties matter. *)
Definition validCredentials : gmap string string :=
  <["admin" := "admin123"]>
    (<["user1" := "password123"]> (<["testuser" := "test123"]> ∅)).

Definition authenticateUser (username password : string) : bool :=
  bool_decide (validCredentials !! username = Some password).

(** The item 'intellisoc_logs' of localStorage: missing (or empty),
    holding a text that is not the JSON text of an array, on which
    [JSON.parse] or [push] throws, or holding an array of log entries. *)
Inductive Stored (A : Type) :=
| NoItem
| Garbage
| Logs (logs : list A).
Arguments NoItem {A}.
Arguments Garbage {A}.
Arguments Logs {A} logs.

(** [storeLogLocally]; [quota] tells whether [localStorage.setItem]
    succeeds.  Every error is caught and leaves the item as it was. *)
Definition storeLogLocally {A} (quota : bool) (logEntry : A) (item : Stored A)
    : Stored A :=
  match item with
  | Garbage => Garbage
  | NoItem => if quota then Logs (push_capped 100 logEntry []) else NoItem
  | Logs logs => if quota then Logs (push_capped 100 logEntry logs) else Logs logs
  end.

Definition stored_logs {A} (item : Stored A) : list A :=
  match item with
  | Logs logs => logs
  | NoItem | Garbage => []
  end.

(** Mouse Movement Tracking. *)
Module Move.
Record t := mk {
  x : Z;
  y : Z;
  timestamp : Z }.
End Move.

Record Mouse := mkMouse {
  mouseMovements : list Move.t;
  lastMouseTime : Z }.

(** The listener of 'mousemove'; [currentTime] is [Date.now()]. *)
Definition on_mousemove (clientX clientY currentTime : Z) (m : Mouse) : Mouse :=
  if decide (500 < currentTime - lastMouseTime m) then
    mkMouse (push_capped 20 (Move.mk clientX clientY currentTime)
                         (mouseMovements m))
            currentTime
  else m.

(** The movements of the mouse, as (clientX, clientY, Date.now()). *)
Definition track_mouse (events : list (Z * Z * Z)) (m : Mouse) : Mouse :=
  foldl (λ m e, on_mousemove e.1.1 e.1.2 e.2 m) m events.

(** Timestamps more than 500 ms apart, each from the next. *)
Fixpoint spaced (ts : list Z) : Prop :=
  match ts with
  | [] => True
  | t1 :: rest =>
      match rest with
      | [] => True
      | t2 :: _ => 500 < t2 - t1 ∧ spaced rest
      end
  end.

(** Keyboard Behavior Tracking. *)
Module KeyPress.
Record t := mk {
  key : string;
  timestamp : Z }.
End KeyPress.

(** The listener of 'keydown': [key] is [e.key], [now] is [Date.now()]. *)
Definition on_keydown (key : string) (now : Z) (keyPressTimings : list KeyPress.t)
    : list KeyPress.t :=
  push_capped 50
    (KeyPress.mk (if bool_decide (key = "Enter") then "Enter" else "Key") now)
    keyPressTimings.

Definition track_keys (events : list (string * Z)) (l : list KeyPress.t)
    : list KeyPress.t :=
  foldl (λ l e, on_keydown e.1 e.2 l) l events.

(** Browser Console Detection: one run of the function that the page calls
    every second, on the four dimensions of the window; the result is the
    new value of [devtools.open] and the event that is logged, if any. *)
Inductive DevtoolsEvent := DEVTOOLS_OPENED | DEVTOOLS_CLOSED.

Definition devtools_check (outerWidth innerWidth outerHeight innerHeight : Z)
    (open : bool) : bool * option DevtoolsEvent :=
  if bool_decide (160 < outerWidth - innerWidth)
     || bool_decide (160 < outerHeight - innerHeight)
  then
    if negb open then (true, Some DEVTOOLS_OPENED) else (open, None)
  else
    if open then (false, Some DEVTOOLS_CLOSED) else (open, None).

(** The events logged along successive checks. *)
Fixpoint devtools_log (checks : list (Z * Z * Z * Z)) (open : bool)
    : list DevtoolsEvent :=
  match checks with
  | [] => []
  | c :: checks =>
      let r := devtools_check c.1.1.1 c.1.1.2 c.1.2 c.2 open in
      match r.2 with
      | Some e => e :: devtools_log checks r.1
      | None => devtools_log checks r.1
      end
  end.

(** A log in which openings and closings alternate, given whether the
    console is open before it. *)
Fixpoint alternates (open : bool) (log : list DevtoolsEvent) : Prop :=
  match log with
  | [] => True
  | DEVTOOLS_OPENED :: log => open = false ∧ alternates true log
  | DEVTOOLS_CLOSED :: log => open = true ∧ alternates false log
  end.

(** Entries stored one after the other; each comes with the outcome of
    [localStorage.setItem]. *)
Definition store_all {A} (entries : list (bool * A)) (item : Stored A)
    : Stored A :=
  foldl (λ item e, storeLogLocally e.1 e.2 item) item entries.

(** The invariant of the mouse tracker: at most 20 movements, recorded more
    than 500 ms apart, the last of them at [lastMouseTime]. *)
Definition mouse_ok (m : Mouse) : Prop :=
  (length (mouseMovements m) ≤ 20)%nat ∧
  spaced (Move.timestamp <$> mouseMovements m) ∧
  ∀ t, last (Move.timestamp <$> mouseMovements m) = Some t →
       t = lastMouseTime m.

(** What the page keeps of a key press. *)
Definition recorded_key (e : string * Z) : KeyPress.t :=
  KeyPress.mk (if bool_decide (e.1 = "Enter") then "Enter" else "Key") e.2.
(* ===================================================================== *)
(** * Running programs *)
(* ===================================================================== *)

Lemma exec_bind {A B} (p : Prog A) (k : A → Prog B) (w : World) :
  exec (p ≫= k) w = exec (k (exec p w).1) (exec p w).2.
Proof.
  revert w. induction p as [a | X op h IH]; intros w; [done |].
  cbn. apply IH.
Qed.

(** The environment's answers do not depend on what the program does. *)
Lemma handle_oracles {X} (op : Op X) (w : World) :
  fs_ok (handle op w).2 = fs_ok w ∧
  clock (handle op w).2 = clock w ∧
  entropy (handle op w).2 = entropy w.
Proof. by destruct op. Qed.

Lemma exec_oracles {A} (p : Prog A) (w : World) :
  fs_ok (exec p w).2 = fs_ok w ∧
  clock (exec p w).2 = clock w ∧
  entropy (exec p w).2 = entropy w.
Proof.
  revert w. induction p as [a | X op h IH]; intros w; [done |].
  cbn. destruct (IH (handle op w).1 (handle op w).2) as (-> & -> & ->).
  apply handle_oracles.
Qed.

Lemma exec_healthy {A} (p : Prog A) (w : World) :
  healthy w → healthy (exec p w).2.
Proof. intros H n. destruct (exec_oracles p w) as [-> _]. apply H. Qed.

(** Running the turns of the event loop one after the other, for a single
    request, is running the handler from start to end. *)
Lemma exec_settle {A} (p : Prog A) (w : World) :
  exec (settle p w).1 (settle p w).2 = exec p w.
Proof.
  revert w. induction p as [a | X op h IH]; intros w; [done |].
  cbn. destruct (is_await op); [done |]. apply IH.
Qed.

Lemma exec_resume {A} (p : Prog A) (w : World) :
  exec (resume p w).1 (resume p w).2 = exec p w.
Proof. destruct p as [a | X op h]; [done |]. cbn. apply exec_settle. Qed.

Lemma exec_turns {A} (n : nat) (p : Prog A) (w : World) :
  exec (turns n p w).1 (turns n p w).2 = exec p w.
Proof.
  revert p w. induction n as [| n IH]; intros p w; [done |].
  cbn. rewrite IH. apply exec_resume.
Qed.

Lemma turns_finished {A} (n : nat) (p : Prog A) (w : World) (a : A) :
  finished (turns n p w).1 = Some a →
  exec p w = (a, (turns n p w).2).
Proof.
  intros Hf. rewrite <- (exec_turns n p w).
  destruct (turns n p w).1 as [a' | X op k]; [| done].
  cbn in *. congruence.
Qed.

(** Consecutive turns of the request [i] leave the other requests where
    they are. *)
Lemma run_schedule_replicate {A} (i n : nat) (pool : list (Prog A))
    (p : Prog A) (w : World) :
  pool !! i = Some p →
  run_schedule (replicate n i) pool w
  = (<[i := (turns n p w).1]> pool, (turns n p w).2).
Proof.
  revert pool p w. induction n as [| n IH]; intros pool p w Hp.
  - cbn. by rewrite list_insert_id.
  - cbn. unfold turn. rewrite Hp. cbn.
    rewrite (IH _ (resume p w).1).
    + by rewrite list_insert_insert_eq.
    + apply list_lookup_insert_eq. by eapply lookup_lt_Some.
Qed.

Lemma run_schedule_app {A} (s1 s2 : list nat) (pool : list (Prog A))
    (w : World) :
  run_schedule (s1 ++ s2) pool w
  = run_schedule s2 (run_schedule s1 pool w).1 (run_schedule s1 pool w).2.
Proof.
  revert pool w. induction s1 as [| i s1 IH]; intros pool w; [done |].
  cbn. apply IH.
Qed.

(* ===================================================================== *)
(** * Reputation Engine *)
(* ===================================================================== *)

Section find_lemmas.
Context {A : Type} (p : A → bool).

Lemma find_None_findIndex (l : list A) :
  List.find p l = None → findIndex p l = None.
Proof.
  induction l as [| x l IH]; cbn; [done |].
  destruct (p x); [done |]. intros H. by rewrite IH.
Qed.

Lemma find_Some_findIndex (l : list A) (x : A) :
  List.find p l = Some x →
  ∃ i, findIndex p l = Some i ∧ l !! i = Some x.
Proof.
  induction l as [| y l IH]; cbn; [done |].
  destruct (p y).
  - intros [= ->]. by exists 0%nat.
  - intros H. destruct (IH H) as (i & -> & Hi). by exists (S i).
Qed.

Lemma find_snoc_None (l : list A) (x : A) :
  List.find p l = None → p x = true → List.find p (l ++ [x]) = Some x.
Proof.
  intros Hl Hx. induction l as [| y l IH]; cbn in *.
  - by rewrite Hx.
  - destruct (p y); [done |]. by apply IH.
Qed.

Lemma find_insert_findIndex (l : list A) (i : nat) (x : A) :
  findIndex p l = Some i → p x = true →
  List.find p (<[i := x]> l) = Some x.
Proof.
  revert i. induction l as [| y l IH]; intros i; cbn; [done |].
  destruct (p y) eqn:Hy.
  - intros [= <-] Hx. cbn. by rewrite Hx.
  - destruct (findIndex p l) as [j |]; [| done].
    intros [= <-] Hx. cbn. rewrite Hy. by apply IH.
Qed.

Lemma find_Some_true (l : list A) (x : A) :
  List.find p l = Some x → p x = true.
Proof.
  induction l as [| y l IH]; cbn; [done |].
  destruct (p y) eqn:Hy; [by intros [= <-] | done].
Qed.
End find_lemmas.

Lemma same_ip_bump ip result now r :
  same_ip ip r = true → same_ip ip (bump result now r) = true.
Proof. by destruct result. Qed.

Lemma same_ip_fresh ip result t1 t2 :
  same_ip ip (fresh ip result t1 t2) = true.
Proof. unfold same_ip. cbn. by apply bool_decide_eq_true. Qed.

(** The first observation of an address appends a fresh record. *)
Lemma observe_new ip result w :
  healthy w → lookup_ip ip w = None →
  lookup_ip ip (observe ip result w) =
    Some (fresh ip result (clock w (clock_reads w))
                          (clock w (S (clock_reads w)))).
Proof.
  intros H Hn. unfold observe, updateIPReputation, lookup_ip in *.
  cbn. rewrite H. cbn.
  rewrite (find_None_findIndex _ _ Hn). cbn. rewrite H. cbn.
  apply find_snoc_None; [done | apply same_ip_fresh].
Qed.

(** A later observation updates the record in place. *)
Lemma observe_known ip result w r :
  healthy w → lookup_ip ip w = Some r →
  lookup_ip ip (observe ip result w) =
    Some (bump result (clock w (clock_reads w)) r).
Proof.
  intros H Hr. unfold observe, updateIPReputation, lookup_ip in *.
  cbn. rewrite H. cbn.
  destruct (find_Some_findIndex _ _ _ Hr) as (i & Hi & Hl).
  rewrite Hi, Hl. cbn. rewrite H. cbn.
  apply find_insert_findIndex; [done |].
  apply same_ip_bump. by eapply find_Some_true.
Qed.

Lemma observe_healthy ip result w : healthy w → healthy (observe ip result w).
Proof. apply exec_healthy. Qed.

Lemma observe_all_healthy ip results w :
  healthy w → healthy (observe_all ip results w).
Proof.
  revert w. induction results as [| o results IH]; intros w H; [done |].
  cbn. by apply IH, observe_healthy.
Qed.

Lemma fresh_consistent ip result t1 t2 : consistent (fresh ip result t1 t2).
Proof. by destruct result. Qed.

Lemma bump_consistent result now r :
  consistent r → consistent (bump result now r).
Proof. intros [Ht Hs]. destruct result; split; cbn; lia. Qed.

(** Once the address has a consistent record, it keeps one. *)
Lemma observe_all_consistent ip results w r :
  healthy w → lookup_ip ip w = Some r → consistent r →
  ∃ r', lookup_ip ip (observe_all ip results w) = Some r' ∧ consistent r'.
Proof.
  revert w r. induction results as [| o results IH]; intros w r H Hr Hc.
  - by exists r.
  - cbn. eapply IH.
    + by apply observe_healthy.
    + by apply observe_known.
    + by apply bump_consistent.
Qed.

(** After any sequence of observations from no record, the address has no
    record (no observation yet) or a consistent one. *)
Lemma observe_all_from_none ip results w :
  healthy w → lookup_ip ip w = None →
  (results = [] ∧ lookup_ip ip (observe_all ip results w) = None) ∨
  (∃ r, lookup_ip ip (observe_all ip results w) = Some r ∧ consistent r).
Proof.
  intros H Hn. destruct results as [| o results]; [by left | right].
  cbn. eapply observe_all_consistent.
  - by apply observe_healthy.
  - by apply observe_new.
  - apply fresh_consistent.
Qed.

Lemma first_start_healthy : healthy first_start.
Proof. by intros n. Qed.

(** C1, as the code has it.  Starting from an address without a reputation
    record, on a storage whose reads and writes succeed, after every
    observation of any sequence the record of the address satisfies
    [total_logins = successful_logins + failed_logins] and has its
    [reputation_score] in [0,100]; a success observation does not decrease
    the score the record had before it, and a failure observation does not
    increase it. *)
Theorem reputation_invariant (w : World) (ip : string)
    (results : list LoginResult) (result : LoginResult) :
  healthy w →
  lookup_ip ip w = None →
  let before := observe_all ip results w in
  ∃ r, lookup_ip ip (observe ip result before) = Some r ∧
       IPRep.total_logins r = IPRep.successful_logins r + IPRep.failed_logins r ∧
       0 ≤ IPRep.reputation_score r ≤ 100 ∧
       ∀ p, lookup_ip ip before = Some p →
            (result = success →
             IPRep.reputation_score p ≤ IPRep.reputation_score r) ∧
            (result = failure →
             IPRep.reputation_score r ≤ IPRep.reputation_score p).
Proof.
  intros H Hn before.
  assert (Hb : healthy before) by by apply observe_all_healthy.
  destruct (observe_all_from_none ip results w H Hn)
    as [[_ Hnone] | (p & Hp & Hc)].
  - exists (fresh ip result (clock before (clock_reads before))
                            (clock before (S (clock_reads before)))).
    split; [by apply observe_new |].
    destruct (fresh_consistent ip result (clock before (clock_reads before))
                (clock before (S (clock_reads before)))) as [Ht Hs].
    split; [done |]. split; [done |].
    intros q Hq. unfold before in Hq. congruence.
  - exists (bump result (clock before (clock_reads before)) p).
    split; [by apply observe_known |].
    destruct (bump_consistent result (clock before (clock_reads before)) p Hc)
      as [Ht Hs].
    split; [done |]. split; [done |].
    intros q Hq. unfold before in Hq. assert (q = p) as -> by congruence.
    destruct Hc as [_ Hc]. split; intros ->; cbn; lia.
Qed.

Lemma reputation_invariant_witness :
  healthy first_start ∧
  lookup_ip "203.0.113.7" first_start = None ∧
  ∃ r, lookup_ip "203.0.113.7"
         (observe "203.0.113.7" success
            (observe_all "203.0.113.7" [failure; failure; success] first_start))
       = Some r ∧
       IPRep.total_logins r = IPRep.successful_logins r + IPRep.failed_logins r ∧
       0 ≤ IPRep.reputation_score r ≤ 100 ∧
       ∀ p, lookup_ip "203.0.113.7"
              (observe_all "203.0.113.7" [failure; failure; success] first_start)
            = Some p →
            (success = success →
             IPRep.reputation_score p ≤ IPRep.reputation_score r) ∧
            (success = failure →
             IPRep.reputation_score r ≤ IPRep.reputation_score p).
Proof.
  split; [apply first_start_healthy |].
  split; [reflexivity |].
  apply (reputation_invariant first_start "203.0.113.7"
           [failure; failure; success] success).
  - apply first_start_healthy.
  - reflexivity.
Defined.

(** C1, as stated, fails when ip_reputation.json cannot be read: the file
    is read as the empty array, the record of the address is created anew
    and written over the file, and a success observation lowers the score.
    Here the address has no record at the start, two successes bring its
    score to 96, the read of the third observation fails, and after the
    third success the score is 95 and the counters have started again. *)
Lemma unreadable_file_lowers_score :
  let w := one_call_fails 4 in
  let before := observe_all "203.0.113.7" [success; success] w in
  let after := observe "203.0.113.7" success before in
  lookup_ip "203.0.113.7" w = None ∧
  fs_calls before = 4%nat ∧
  fs_ok w 4 = false ∧
  lookup_ip "203.0.113.7" before =
    Some (IPRep.mk "203.0.113.7" 96 2 0 2 0 1700000000000 1700000000002 false) ∧
  lookup_ip "203.0.113.7" after =
    Some (IPRep.mk "203.0.113.7" 95 1 0 1 0 1700000000003 1700000000004 false) ∧
  ¬ (∀ p r, lookup_ip "203.0.113.7" before = Some p →
            lookup_ip "203.0.113.7" after = Some r →
            IPRep.reputation_score p ≤ IPRep.reputation_score r).
Proof.
  do 5 (split; [by vm_compute |]).
  intros Hmono.
  specialize (Hmono
    (IPRep.mk "203.0.113.7" 96 2 0 2 0 1700000000000 1700000000002 false)
    (IPRep.mk "203.0.113.7" 95 1 0 1 0 1700000000003 1700000000004 false)).
  cbn in Hmono. specialize (Hmono ltac:(by vm_compute) ltac:(by vm_compute)).
  lia.
Qed.

(** C5, as the code has it.  On a storage whose reads and writes succeed,
    the first observation of an address without a record creates a record
    with [total_logins = 1], a [reputation_score] of exactly 95 on success
    and exactly 90 on failure, the outcome counted in [successful_logins]
    or in [failed_logins], [suspicious_activities] 1 on failure and 0 on
    success, and [is_blocked = false]; [first_seen] and [last_seen] are two
    successive readings of the clock, [first_seen] the earlier one. *)
Theorem first_observation (w : World) (ip : string) (result : LoginResult) :
  healthy w →
  lookup_ip ip w = None →
  ∃ r, lookup_ip ip (observe ip result w) = Some r ∧
       IPRep.ip_address r = ip ∧
       IPRep.total_logins r = 1 ∧
       IPRep.reputation_score r = match result with success => 95 | failure => 90 end ∧
       IPRep.successful_logins r = match result with success => 1 | failure => 0 end ∧
       IPRep.failed_logins r = match result with success => 0 | failure => 1 end ∧
       IPRep.suspicious_activities r = match result with success => 0 | failure => 1 end ∧
       IPRep.is_blocked r = false ∧
       IPRep.first_seen r = clock w (clock_reads w) ∧
       IPRep.last_seen r = clock w (S (clock_reads w)).
Proof.
  intros H Hn. eexists. split; [by apply observe_new |].
  by destruct result.
Qed.

Lemma first_observation_witness :
  healthy first_start ∧
  lookup_ip "203.0.113.7" first_start = None ∧
  ∃ r, lookup_ip "203.0.113.7" (observe "203.0.113.7" failure first_start)
       = Some r ∧
       IPRep.ip_address r = "203.0.113.7" ∧
       IPRep.total_logins r = 1 ∧
       IPRep.reputation_score r = 90 ∧
       IPRep.successful_logins r = 0 ∧
       IPRep.failed_logins r = 1 ∧
       IPRep.suspicious_activities r = 1 ∧
       IPRep.is_blocked r = false ∧
       IPRep.first_seen r = clock first_start (clock_reads first_start) ∧
       IPRep.last_seen r = clock first_start (S (clock_reads first_start)).
Proof.
  split; [apply first_start_healthy |].
  split; [reflexivity |].
  apply (first_observation first_start "203.0.113.7" failure).
  - apply first_start_healthy.
  - reflexivity.
Defined.

(** C5, as stated, fails on its last clause: when the clock moves between
    the two [new Date()] of the object literal, the dates differ. *)
Lemma first_observation_dates_differ :
  healthy first_start ∧
  lookup_ip "203.0.113.7" first_start = None ∧
  lookup_ip "203.0.113.7" (observe "203.0.113.7" success first_start) =
    Some (IPRep.mk "203.0.113.7" 95 1 0 1 0 1700000000000 1700000000001 false) ∧
  ¬ (∃ r, lookup_ip "203.0.113.7" (observe "203.0.113.7" success first_start)
          = Some r ∧ IPRep.first_seen r = IPRep.last_seen r).
Proof.
  split; [apply first_start_healthy |].
  split; [reflexivity |].
  split; [by vm_compute |].
  intros (r & Hr & Heq). vm_compute in Hr.
  injection Hr as <-. cbn in Heq. discriminate.
Qed.

(* ===================================================================== *)
(** * Attempt Ledger and Session Registry: the login handler *)
(* ===================================================================== *)

(** An update of the reputation of an address touches no other file. *)
Lemma updateIPReputation_frame ip result w :
  let w' := (exec (updateIPReputation ip result) w).2 in
  users (disk w') = users (disk w) ∧
  sessions (disk w') = sessions (disk w) ∧
  event_logs (disk w') = event_logs (disk w) ∧
  login_attempts (disk w') = login_attempts (disk w).
Proof.
  unfold updateIPReputation. cbn.
  destruct (fs_ok w (fs_calls w)); cbn.
  - destruct (findIndex _ _) as [i |]; cbn.
    + destruct (_ !! i); cbn; by destruct (fs_ok w (S (fs_calls w))).
    + by destruct (fs_ok w (S (fs_calls w))).
  - by destruct (fs_ok w (S (fs_calls w))).
Qed.

Lemma updateIPReputation_users ip result w :
  users (disk (exec (updateIPReputation ip result) w).2) = users (disk w).
Proof. apply updateIPReputation_frame. Qed.

Lemma updateIPReputation_sessions ip result w :
  sessions (disk (exec (updateIPReputation ip result) w).2) = sessions (disk w).
Proof. apply updateIPReputation_frame. Qed.

Lemma updateIPReputation_attempts ip result w :
  login_attempts (disk (exec (updateIPReputation ip result) w).2)
  = login_attempts (disk w).
Proof. apply updateIPReputation_frame. Qed.

#[local] Arguments updateIPReputation : simpl never.
#[local] Arguments find_user : simpl never.
#[local] Arguments attemptRecord : simpl never.
#[local] Arguments new_session : simpl never.

(** Runs the login handler on the world [w], by cases on the outcomes of
    the file operations, on the user found and on the password; [frame]
    says what the update of the reputation leaves unchanged. *)
Ltac run_login w frame :=
  repeat match goal with
  | |- context [match find_user ?l ?u with _ => _ end] =>
      destruct (find_user l u); cbn
  | |- context [bool_decide ?P] => destruct (bool_decide P); cbn
  | |- context [fs_ok w ?n] => destruct (fs_ok w n); cbn
  | |- context [exec (updateIPReputation ?i ?r ≫= _) ?w'] =>
      rewrite (exec_bind (updateIPReputation i r)); cbn;
      rewrite ?(frame i r w'); cbn
  end.

(** What a validated login leaves in login_attempts.json. *)
Lemma login_attempts_after w ip body username password :
  healthy w → validated body username password →
  let user := find_user (users (disk w)) username in
  login_attempts (disk (exec (login ip body) w).2) =
    login_attempts (disk w) ++
    [attemptRecord (login_attempts (disk w)) (clock w (clock_reads w))
       username password user ip body
       (verdict user password).1 (verdict user password).2].
Proof.
  intros H (Hu & Hp & Hnu & Hnp) user. subst user.
  unfold login. rewrite Hu, Hp. cbn.
  rewrite !bool_decide_eq_false_2 by done. cbn.
  rewrite !H. cbn.
  destruct (find_user (users (disk w)) username) as [user |]; cbn.
  - case_bool_decide; cbn; rewrite !H; cbn; rewrite exec_bind; cbn;
      by rewrite updateIPReputation_attempts.
  - rewrite !H. cbn. rewrite exec_bind. cbn.
    by rewrite updateIPReputation_attempts.
Qed.

(** What a successful login leaves in sessions.json: the token is the next
    draw of the random generator, [expires_at] is computed from the second
    reading of the clock and [created_at] is the third reading. *)
Lemma sessions_after_success w ip body username password user :
  healthy w → validated body username password →
  find_user (users (disk w)) username = Some user →
  User.password user = password →
  sessions (disk (exec (login ip body) w).2) =
    sessions (disk w) ++
    [new_session user (entropy w (draws w)) ip body
       (clock w (S (S (clock_reads w))))
       (clock w (S (clock_reads w)) + 24 * 60 * 60 * 1000)].
Proof.
  intros H (Hu & Hp & Hnu & Hnp) Hfind Hpw.
  unfold login. rewrite Hu, Hp. cbn.
  rewrite !bool_decide_eq_false_2 by done. cbn.
  rewrite !H. cbn. rewrite Hfind. cbn.
  rewrite bool_decide_eq_true_2 by done. cbn.
  rewrite !H. cbn. rewrite exec_bind. cbn.
  by rewrite updateIPReputation_sessions.
Qed.

(** A login does not change users.json. *)
Lemma login_users w ip body :
  users (disk (exec (login ip body) w).2) = users (disk w).
Proof.
  unfold login.
  destruct (LoginBody.username body) as [username |]; [| done].
  destruct (LoginBody.password body) as [password |]; [| done].
  destruct (truthy (Some username) && truthy (Some password)); [| done].
  unfold login_checked. cbn.
  run_login w updateIPReputation_users; done.
Qed.

(** Identifiers 1..n have maximum n. *)
Lemma foldr_max_seq (n s : nat) (b : Z) :
  b ≤ Z.of_nat s →
  foldr Z.max b (Z.of_nat <$> seq s n) =
    if decide (n = 0%nat) then b else Z.of_nat s + Z.of_nat n - 1.
Proof.
  revert s. induction n as [| n IH]; intros s Hb; [done |].
  cbn [seq fmap list_fmap foldr]. rewrite IH by lia.
  destruct (decide (S n = 0%nat)); [done |].
  destruct (decide (n = 0%nat)); lia.
Qed.

Lemma numbered_next ledger :
  numbered ledger →
  spec_next_attempt_id ledger = Z.of_nat (length ledger) + 1.
Proof.
  unfold numbered, spec_next_attempt_id. intros ->.
  destruct ledger as [| a ledger]; [done |].
  cbn. rewrite foldr_max_seq by lia.
  destruct (decide (length ledger = 0%nat)); lia.
Qed.

Lemma numbered_snoc ledger a :
  numbered ledger →
  Attempt.attempt_id a = Z.of_nat (length ledger) + 1 →
  numbered (ledger ++ [a]).
Proof.
  unfold numbered. intros Hl Ha.
  rewrite fmap_app, Hl, length_app, Nat.add_1_r, seq_S, fmap_app. cbn.
  rewrite Ha. do 3 f_equal. lia.
Qed.

Lemma numbered_one a : Attempt.attempt_id a = 1 → numbered [a].
Proof. intros Ha. unfold numbered. cbn. by rewrite Ha. Qed.

(** The numbering 1..n is an invariant of the login handler, whatever the
    outcomes of the file operations: a ledger that cannot be read is read
    as the empty array and the record written gets the identifier 1. *)
Lemma login_numbered w ip body :
  numbered (login_attempts (disk w)) →
  numbered (login_attempts (disk (exec (login ip body) w).2)).
Proof.
  intros Hn. unfold login.
  destruct (LoginBody.username body) as [username |]; [| done].
  destruct (LoginBody.password body) as [password |]; [| done].
  destruct (truthy (Some username) && truthy (Some password)); [| done].
  unfold login_checked. cbn.
  run_login w updateIPReputation_attempts;
    first [done | by apply numbered_snoc | by apply numbered_one].
Qed.

Lemma handle_logins_numbered requests w :
  numbered (login_attempts (disk w)) →
  numbered (login_attempts (disk (handle_logins requests w))).
Proof.
  revert w. induction requests as [| [ip body] requests IH]; intros w Hn;
    [done |].
  cbn. by apply IH, login_numbered.
Qed.

(** Every ledger built by the handler from the empty array of a first
    start is numbered 1..n. *)
Lemma first_start_numbered requests :
  numbered (login_attempts (disk (handle_logins requests first_start))).
Proof. by apply handle_logins_numbered. Qed.

Lemma attemptRecord_id ledger t username password user ip body status reason :
  Attempt.attempt_id
    (attemptRecord ledger t username password user ip body status reason)
  = Z.of_nat (length ledger) + 1.
Proof. done. Qed.

(** [password_length] counts UTF-16 code units, as [password.length]
    does: one for each of n, e with an acute accent and the euro sign, two
    for a character outside the basic plane. *)
Example password_length_counts_code_units :
  Attempt.password_length
    (attemptRecord [] 1700000000000 "admin" "né€😀" None "203.0.113.7"
                   (admin_login "session_a" None) FAILURE (Some invalid_password))
  = 5.
Proof. reflexivity. Qed.

Lemma validated_admin sessionId rememberMe :
  validated (admin_login sessionId rememberMe) "admin" "admin123".
Proof. by repeat split. Qed.

Lemma validated_user1 sessionId :
  validated (user1_login sessionId) "user1" "password123".
Proof. by repeat split. Qed.

Lemma validated_with_rememberMe rememberMe body username password :
  validated body username password →
  validated (with_rememberMe rememberMe body) username password.
Proof. done. Qed.

(** C4, as the code has it.  On a storage whose reads and writes succeed,
    recording the attempt of a validated login appends one record at the
    end of the collection, with [attempt_id] equal to the number of records
    of the collection plus 1, hence 1 if the collection is empty.  When the
    identifiers of the collection are 1..n in the order of the records, as
    in every ledger built by the handler from the empty array, this is the
    current maximum [attempt_id] plus 1, and the new collection is numbered
    in the same way. *)
Theorem attempt_recorded (w : World) (ip : string) (body : LoginBody.t)
    (username password : string) :
  healthy w →
  validated body username password →
  let ledger := login_attempts (disk w) in
  ∃ a, login_attempts (disk (exec (login ip body) w).2) = ledger ++ [a] ∧
       Attempt.attempt_id a = Z.of_nat (length ledger) + 1 ∧
       (ledger = [] → Attempt.attempt_id a = 1) ∧
       (numbered ledger →
        Attempt.attempt_id a = spec_next_attempt_id ledger ∧
        numbered (ledger ++ [a])).
Proof.
  intros H Hv ledger. eexists. split; [by apply login_attempts_after |].
  rewrite attemptRecord_id. fold ledger.
  split; [done |]. split; [by intros -> |].
  intros Hn. split; [by rewrite numbered_next | by apply numbered_snoc].
Qed.

Lemma attempt_recorded_witness :
  healthy first_start ∧
  validated (admin_login "session_a" None) "admin" "admin123" ∧
  ∃ a, login_attempts
         (disk (exec (login "203.0.113.7" (admin_login "session_a" None))
                     first_start).2)
       = login_attempts (disk first_start) ++ [a] ∧
       Attempt.attempt_id a
       = Z.of_nat (length (login_attempts (disk first_start))) + 1 ∧
       (login_attempts (disk first_start) = [] → Attempt.attempt_id a = 1) ∧
       (numbered (login_attempts (disk first_start)) →
        Attempt.attempt_id a
        = spec_next_attempt_id (login_attempts (disk first_start)) ∧
        numbered (login_attempts (disk first_start) ++ [a])).
Proof.
  split; [apply first_start_healthy |].
  split; [apply validated_admin |].
  apply (attempt_recorded first_start "203.0.113.7"
           (admin_login "session_a" None) "admin" "admin123").
  - apply first_start_healthy.
  - apply validated_admin.
Defined.

(** C4, as stated, fails when a file operation on login_attempts.json
    fails.  When the collection cannot be read it is read as the empty
    array, the attempt gets the identifier 1 and the array that is written
    holds that record only: here the login of admin is recorded with the
    identifier 1, the read of the ledger fails during the login of user1,
    whose attempt gets 1 again, and not 2, and replaces the attempt of
    admin.  When the collection cannot be written the attempt is not
    appended, and the login is answered all the same. *)
Lemma unreadable_ledger_restarts_numbering :
  let w := one_call_fails 8 in
  let w1 := (exec (login "203.0.113.7" (admin_login "session_a" None)) w).2 in
  let w2 := (exec (login "198.51.100.9" (user1_login "session_b")) w1).2 in
  let r := exec (login "203.0.113.7" (admin_login "session_a" None))
                (one_call_fails 2) in
  validated (user1_login "session_b") "user1" "password123" ∧
  (fs_calls w1 = 7%nat ∧
   fs_ok w 8 = false ∧
   Attempt.username <$> login_attempts (disk w1) = ["admin"] ∧
   Attempt.attempt_id <$> login_attempts (disk w1) = [1] ∧
   spec_next_attempt_id (login_attempts (disk w1)) = 2 ∧
   Attempt.username <$> login_attempts (disk w2) = ["user1"] ∧
   Attempt.attempt_id <$> login_attempts (disk w2) = [1]) ∧
  (fs_ok (one_call_fails 2) 2 = false ∧
   status_code r.1 = 200 ∧
   login_attempts (disk r.2) = []).
Proof.
  split; [apply validated_user1 |].
  by vm_compute.
Qed.

(** C10, as the code has it.  On a storage whose reads and writes succeed,
    a successful login appends one active session whose [expires_at] is
    exactly 24 hours after the clock reading taken when the token is
    generated, and whose [created_at] is the next reading of the clock,
    taken after sessions.json has been read.  The session is the same
    whatever the value of [rememberMe], which is recorded on the attempt
    only. *)
Theorem session_lifetime (w : World) (ip : string) (body : LoginBody.t)
    (username password : string) (user : User.t) :
  healthy w →
  validated body username password →
  find_user (users (disk w)) username = Some user →
  User.password user = password →
  ∃ s a,
    (∀ rememberMe,
       sessions (disk (exec (login ip (with_rememberMe rememberMe body)) w).2)
       = sessions (disk w) ++ [s]) ∧
    sessions (disk (exec (login ip body) w).2) = sessions (disk w) ++ [s] ∧
    Session.expires_at s = clock w (S (clock_reads w)) + 24 * 60 * 60 * 1000 ∧
    Session.created_at s = clock w (S (S (clock_reads w))) ∧
    Session.is_active s = true ∧
    login_attempts (disk (exec (login ip body) w).2)
    = login_attempts (disk w) ++ [a] ∧
    Attempt.remember_me a = LoginBody.rememberMe body.
Proof.
  intros H Hv Hfind Hpw.
  exists (new_session user (entropy w (draws w)) ip body
            (clock w (S (S (clock_reads w))))
            (clock w (S (clock_reads w)) + 24 * 60 * 60 * 1000)).
  eexists. split.
  { intros rememberMe.
    by rewrite (sessions_after_success w ip (with_rememberMe rememberMe body)
                  username password user). }
  split; [by eapply sessions_after_success |].
  do 3 (split; [done |]).
  split; [by apply login_attempts_after | done].
Qed.

Lemma session_lifetime_witness :
  healthy first_start ∧
  validated (admin_login "session_a" (Some true)) "admin" "admin123" ∧
  find_user (users (disk first_start)) "admin"
  = Some (User.mk 1 "admin" "admin123") ∧
  User.password (User.mk 1 "admin" "admin123") = "admin123" ∧
  ∃ s a,
    (∀ rememberMe,
       sessions
         (disk (exec (login "203.0.113.7"
                        (with_rememberMe rememberMe
                           (admin_login "session_a" (Some true))))
                     first_start).2)
       = sessions (disk first_start) ++ [s]) ∧
    sessions
      (disk (exec (login "203.0.113.7" (admin_login "session_a" (Some true)))
                  first_start).2)
    = sessions (disk first_start) ++ [s] ∧
    Session.expires_at s
    = clock first_start (S (clock_reads first_start)) + 24 * 60 * 60 * 1000 ∧
    Session.created_at s = clock first_start (S (S (clock_reads first_start))) ∧
    Session.is_active s = true ∧
    login_attempts
      (disk (exec (login "203.0.113.7" (admin_login "session_a" (Some true)))
                  first_start).2)
    = login_attempts (disk first_start) ++ [a] ∧
    Attempt.remember_me a = LoginBody.rememberMe (admin_login "session_a" (Some true)).
Proof.
  split; [apply first_start_healthy |].
  split; [apply validated_admin |].
  split; [reflexivity |].
  split; [reflexivity |].
  apply (session_lifetime first_start "203.0.113.7"
           (admin_login "session_a" (Some true)) "admin" "admin123"
           (User.mk 1 "admin" "admin123")).
  - apply first_start_healthy.
  - apply validated_admin.
  - reflexivity.
  - reflexivity.
Defined.

(** C10, as stated, fails when the clock moves between the computation of
    [expiresAt] and the reading that gives [created_at]: here the session
    expires one millisecond less than 24 hours after its creation. *)
Lemma session_expires_before_24h :
  healthy first_start ∧
  sessions
    (disk (exec (login "203.0.113.7" (admin_login "session_a" (Some true)))
                first_start).2)
  = [ Session.mk (Some "session_a") 1 sample_token None "203.0.113.7" None
                 1700000000002 1700086400001 true ] ∧
  1700086400001 ≠ 1700000000002 + 24 * 60 * 60 * 1000.
Proof.
  split; [apply first_start_healthy |].
  split; [by vm_compute | done].
Qed.

(* ===================================================================== *)
(** * Durable Store: read-modify-write under concurrent requests *)
(* ===================================================================== *)

Lemma login_healthy w ip body : healthy w → healthy (exec (login ip body) w).2.
Proof. apply exec_healthy. Qed.

Lemma attemptRecord_who ledger t username password user ip body status reason :
  Attempt.username
    (attemptRecord ledger t username password user ip body status reason)
  = username ∧
  Attempt.ip_address
    (attemptRecord ledger t username password user ip body status reason)
  = ip.
Proof. done. Qed.

(** Two validated logins handled one after the other append their two
    attempts. *)
Lemma consecutive_logins_append (w : World)
    (ip1 : string) (body1 : LoginBody.t) (username1 password1 : string)
    (ip2 : string) (body2 : LoginBody.t) (username2 password2 : string) :
  healthy w →
  validated body1 username1 password1 →
  validated body2 username2 password2 →
  let w1 := (exec (login ip1 body1) w).2 in
  let w2 := (exec (login ip2 body2) w1).2 in
  ∃ a1 a2,
    login_attempts (disk w2) = login_attempts (disk w) ++ [a1; a2] ∧
    Attempt.username a1 = username1 ∧ Attempt.ip_address a1 = ip1 ∧
    Attempt.username a2 = username2 ∧ Attempt.ip_address a2 = ip2.
Proof.
  intros H Hv1 Hv2 w1 w2.
  pose proof (login_attempts_after w ip1 body1 username1 password1 H Hv1) as E1.
  pose proof (login_attempts_after w1 ip2 body2 username2 password2
                (login_healthy w ip1 body1 H) Hv2) as E2.
  cbv zeta in E1, E2. fold w1 in E1. fold w2 in E2.
  eexists. eexists. split.
  - rewrite E2, E1, <- app_assoc. reflexivity.
  - by rewrite !(proj1 (attemptRecord_who _ _ _ _ _ _ _ _ _)),
               !(proj2 (attemptRecord_who _ _ _ _ _ _ _ _ _)).
Qed.

(** A validated login awaits the read of users.json as soon as it starts. *)
Lemma settle_login w ip body username password :
  validated body username password →
  settle (login ip body) w = (login ip body, w).
Proof.
  intros (Hu & Hp & Hnu & Hnp). unfold login. rewrite Hu, Hp. cbn.
  by rewrite !bool_decide_eq_false_2.
Qed.

(** C2, as the code has it.  The handlers read a collection, extend the
    array and write it back, with no mutual exclusion.  On a storage whose
    reads and writes succeed, when two login requests are in flight and
    every file operation of the first completes before the first file
    operation of the second, and both requests are answered, the collection
    contains the attempts of both, in that order. *)
Theorem sequential_logins_keep_both (w : World)
    (ip1 : string) (body1 : LoginBody.t) (username1 password1 : string)
    (ip2 : string) (body2 : LoginBody.t) (username2 password2 : string)
    (n m : nat) (answer1 answer2 : Response) :
  healthy w →
  validated body1 username1 password1 →
  validated body2 username2 password2 →
  let r := serve (replicate n 0%nat ++ replicate m 1%nat)
                 [login ip1 body1; login ip2 body2] w in
  finished <$> r.1 = [Some answer1; Some answer2] →
  ∃ a1 a2,
    login_attempts (disk r.2) = login_attempts (disk w) ++ [a1; a2] ∧
    Attempt.username a1 = username1 ∧ Attempt.ip_address a1 = ip1 ∧
    Attempt.username a2 = username2 ∧ Attempt.ip_address a2 = ip2.
Proof.
  intros H Hv1 Hv2 r Hr.
  destruct (consecutive_logins_append w ip1 body1 username1 password1
              ip2 body2 username2 password2 H Hv1 Hv2)
    as (a1 & a2 & Ha & Hwho).
  exists a1, a2. split; [| done]. rewrite <- Ha. do 2 f_equal.
  subst r. revert Hr. unfold serve. cbn [start_all].
  rewrite (settle_login w ip1 body1 username1 password1 Hv1). cbn [fst snd].
  rewrite (settle_login w ip2 body2 username2 password2 Hv2). cbn [fst snd].
  rewrite run_schedule_app.
  rewrite (run_schedule_replicate 0 n _ (login ip1 body1)) by done.
  cbn [fst snd insert list_insert].
  rewrite (run_schedule_replicate 1 m _ (login ip2 body2)) by done.
  cbn [fst snd insert list_insert fmap list_fmap].
  intros [= Hf1 Hf2].
  apply turns_finished in Hf1. apply turns_finished in Hf2.
  rewrite Hf1. cbn [snd]. by rewrite Hf2.
Qed.

Lemma sequential_logins_keep_both_witness :
  healthy first_start ∧
  validated (admin_login "session_a" None) "admin" "admin123" ∧
  validated (user1_login "session_b") "user1" "password123" ∧
  finished <$>
    (serve (replicate 7 0%nat ++ replicate 7 1%nat)
           [login "203.0.113.7" (admin_login "session_a" None);
            login "198.51.100.9" (user1_login "session_b")] first_start).1
  = [Some (mkResponse 200
             (LoginData 1 "admin" sample_token 1700086400001 (Some "session_a"))
             1700000000005);
     Some (mkResponse 200
             (LoginData 2 "user1" sample_token 1700086400007 (Some "session_b"))
             1700000000011)] ∧
  ∃ a1 a2,
    login_attempts
      (disk (serve (replicate 7 0%nat ++ replicate 7 1%nat)
               [login "203.0.113.7" (admin_login "session_a" None);
                login "198.51.100.9" (user1_login "session_b")] first_start).2)
    = login_attempts (disk first_start) ++ [a1; a2] ∧
    Attempt.username a1 = "admin" ∧ Attempt.ip_address a1 = "203.0.113.7" ∧
    Attempt.username a2 = "user1" ∧ Attempt.ip_address a2 = "198.51.100.9".
Proof.
  split; [apply first_start_healthy |].
  split; [apply validated_admin |].
  split; [apply validated_user1 |].
  split; [reflexivity |].
  apply (sequential_logins_keep_both first_start
           "203.0.113.7" (admin_login "session_a" None) "admin" "admin123"
           "198.51.100.9" (user1_login "session_b") "user1" "password123"
           7 7
           (mkResponse 200
              (LoginData 1 "admin" sample_token 1700086400001 (Some "session_a"))
              1700000000005)
           (mkResponse 200
              (LoginData 2 "user1" sample_token 1700086400007 (Some "session_b"))
              1700000000011)).
  - apply first_start_healthy.
  - apply validated_admin.
  - apply validated_user1.
  - reflexivity.
Defined.

(** C2, as stated, fails: when the file operations of two login requests
    alternate, both requests are answered with a success and both handlers
    have pushed an attempt, but the collection written last replaces the
    other one and holds a single record.  The same two requests handled
    one after the other leave two records. *)
Lemma concurrent_logins_lose_an_attempt :
  healthy first_start ∧
  (status_code <$> omap finished (serve alternating two_logins first_start).1
   = [200; 200] ∧
   Attempt.username <$>
     login_attempts (disk (serve alternating two_logins first_start).2)
   = ["user1"]) ∧
  (status_code <$>
     omap finished (serve one_after_the_other two_logins first_start).1
   = [200; 200] ∧
   Attempt.username <$>
     login_attempts (disk (serve one_after_the_other two_logins first_start).2)
   = ["admin"; "user1"]).
Proof.
  split; [apply first_start_healthy |].
  split; by vm_compute.
Qed.

(* ===================================================================== *)
(** * Session Registry: lookup by session identifier *)
(* ===================================================================== *)

Lemma find_head_filter {A} (P : A → Prop) `{!∀ x, Decision (P x)} (l : list A) :
  List.find (λ x, bool_decide (P x)) l = head (filter P l).
Proof.
  induction l as [| x l IH]; [done |].
  destruct (decide (P x)) as [HP | HP].
  - rewrite filter_cons_True by done. cbn [List.find head].
    by rewrite bool_decide_eq_true_2.
  - rewrite filter_cons_False by done. cbn [List.find].
    by rewrite bool_decide_eq_false_2.
Qed.

Lemma find_first {A} (p : A → bool) (l : list A) :
  match List.find p l with
  | Some x => ∃ older newer, l = older ++ x :: newer ∧ p x = true ∧
                             ∀ y, y ∈ older → p y = false
  | None => ∀ y, y ∈ l → p y = false
  end.
Proof.
  induction l as [| x l IH]; cbn.
  - intros y Hy. by apply elem_of_nil in Hy.
  - destruct (p x) eqn:Hx.
    + exists [], l. split; [done |]. split; [done |].
      intros y Hy. by apply elem_of_nil in Hy.
    + destruct (List.find p l) as [z |].
      * destruct IH as (older & newer & -> & Hz & Hold).
        exists (x :: older), newer. split; [done |]. split; [done |].
        intros y [-> | Hy]%elem_of_cons; [done | by apply Hold].
      * intros y [-> | Hy]%elem_of_cons; [done | by apply IH].
Qed.

(** C6, as the code has it.  The lookup returns the first record of
    sessions.json, in the order of insertion, whose [session_id] is the
    one asked for, that is the earliest created one, whatever its
    [is_active]; it returns none exactly when no record has that
    [session_id]. *)
Theorem session_lookup_first (sessions : list Session.t)
    (sessionId : option string) :
  find_session sessions sessionId
  = head (filter (λ s, Session.session_id s = sessionId) sessions) ∧
  match find_session sessions sessionId with
  | Some s =>
      ∃ older newer,
        sessions = older ++ s :: newer ∧
        Session.session_id s = sessionId ∧
        ∀ s', s' ∈ older → Session.session_id s' ≠ sessionId
  | None => ∀ s, s ∈ sessions → Session.session_id s ≠ sessionId
  end.
Proof.
  split; [apply find_head_filter |].
  unfold find_session.
  pose proof (find_first
    (λ s, bool_decide (Session.session_id s = sessionId)) sessions) as Hf.
  destruct (List.find _ sessions) as [s |].
  - destruct Hf as (older & newer & -> & Hs & Hold).
    exists older, newer. split; [done |].
    split; [by apply bool_decide_eq_true in Hs |].
    intros s' Hs'. by apply (bool_decide_eq_false_1 _), Hold.
  - intros s Hs. by apply (bool_decide_eq_false_1 _), Hf.
Qed.

(** C6, as stated, fails when a session identifier is used by two logins:
    both records are active, the lookup returns the older one (the session
    of admin) and the events that follow are attributed to admin, where
    the specification selects the session of user1. *)
Lemma session_lookup_returns_oldest :
  (Session.session_id <$> sessions (disk after_two_logins_of_one_page)
   = [Some "session_a"; Some "session_a"] ∧
   Session.is_active <$> sessions (disk after_two_logins_of_one_page)
   = [true; true] ∧
   Session.user_id <$> sessions (disk after_two_logins_of_one_page) = [1; 2]) ∧
  Session.user_id <$>
    find_session (sessions (disk after_two_logins_of_one_page))
                 (Some "session_a") = Some 1 ∧
  Session.user_id <$>
    spec_find_by_session_id (sessions (disk after_two_logins_of_one_page))
                            (Some "session_a") = Some 2 ∧
  userId_of (sessions (disk after_two_logins_of_one_page)) (Some "session_a")
  = Some 1.
Proof. by vm_compute. Qed.

(* ===================================================================== *)
(** * Attempt Ledger: time-windowed statistics *)
(* ===================================================================== *)

Lemma filter_sublist_mono {A} (P Q : A → Prop)
    `{!∀ x, Decision (P x)} `{!∀ x, Decision (Q x)} (l : list A) :
  (∀ x, P x → Q x) → filter P l `sublist_of` filter Q l.
Proof.
  intros HPQ. induction l as [| x l IH]; [done |].
  rewrite !filter_cons. destruct (decide (P x)) as [HP | HP].
  - rewrite decide_True by auto. by apply sublist_skip.
  - destruct (decide (Q x)); [by apply sublist_cons | done].
Qed.

Lemma sublist_filter_both {A} (P : A → Prop) `{!∀ x, Decision (P x)}
    (l1 l2 : list A) :
  l1 `sublist_of` l2 → filter P l1 `sublist_of` filter P l2.
Proof.
  induction 1 as [| x l1 l2 _ IH | x l1 l2 _ IH]; [done | |].
  - rewrite !filter_cons. destruct (decide (P x)); [by apply sublist_skip | done].
  - rewrite filter_cons. destruct (decide (P x)); [by apply sublist_cons | done].
Qed.

Lemma distinct_sublist (xs ys : list string) :
  xs `sublist_of` ys → (distinct xs ≤ distinct ys)%nat.
Proof.
  intros Hs. unfold distinct. apply subseteq_size. intros x.
  rewrite !elem_of_list_to_set. intros Hx. by eapply elem_of_sublist.
Qed.

Lemma hoursAgo_1h : hoursAgo (Some "1h") = 1.
Proof. reflexivity. Qed.

Lemma hoursAgo_24h : hoursAgo (Some "24h") = 24.
Proof. reflexivity. Qed.

Lemma threshold_1h_24h (now : Instant) :
  threshold now (Some "24h") ≤ threshold now (Some "1h").
Proof. unfold threshold. rewrite hoursAgo_1h, hoursAgo_24h. lia. Qed.

Lemma recent_1h_sublist_24h (ledger : list Attempt.t) (now : Instant) :
  recentAttempts now (Some "1h") ledger
  `sublist_of` recentAttempts now (Some "24h") ledger.
Proof.
  apply filter_sublist_mono. intros a Ha.
  pose proof (threshold_1h_24h now). lia.
Qed.

Lemma bucket_sublist (status : AttemptStatus) (l1 l2 : list Attempt.t) :
  l1 `sublist_of` l2 → bucket_le (bucket status l1) (bucket status l2).
Proof.
  intros Hs.
  assert (Hw : with_status status l1 `sublist_of` with_status status l2)
    by by apply sublist_filter_both.
  repeat split; cbn.
  - by apply sublist_length.
  - by apply distinct_sublist, fmap_sublist.
  - by apply distinct_sublist, fmap_sublist.
Qed.

(** C7.  For every attempt ledger and every instant [now], the attempts
    that the time filter of stats("1h") selects are among those that the
    filter of stats("24h") selects, and in each of the two buckets the
    count, the number of distinct addresses and the number of distinct
    user names of stats("1h") are at most those of stats("24h"). *)
Theorem stats_1h_within_24h (ledger : list Attempt.t) (now : Instant) :
  let recent1 := recentAttempts now (Some "1h") ledger in
  let recent24 := recentAttempts now (Some "24h") ledger in
  (∀ a, a ∈ recent1 → a ∈ recent24) ∧
  bucket_le (stats_SUCCESS (calc_stats recent1))
            (stats_SUCCESS (calc_stats recent24)) ∧
  bucket_le (stats_FAILURE (calc_stats recent1))
            (stats_FAILURE (calc_stats recent24)).
Proof.
  intros recent1 recent24.
  pose proof (recent_1h_sublist_24h ledger now) as Hs.
  split; [| split].
  - intros a Ha. by eapply elem_of_sublist.
  - by apply bucket_sublist.
  - by apply bucket_sublist.
Qed.

(** The same, on the answers of the endpoint to two queries made in the
    same state of the server: same ledger, same reading of the clock. *)
Lemma login_stats_1h_within_24h (w : World) :
  ∃ s1 s24,
    stats_of (Some "1h") w = Some s1 ∧
    stats_of (Some "24h") w = Some s24 ∧
    bucket_le (stats_SUCCESS s1) (stats_SUCCESS s24) ∧
    bucket_le (stats_FAILURE s1) (stats_FAILURE s24).
Proof.
  unfold stats_of. cbn. eexists. eexists.
  split; [done |]. split; [done |].
  split; apply bucket_sublist, recent_1h_sublist_24h.
Qed.

(* ===================================================================== *)
(** * Event Recorder: batches *)
(* ===================================================================== *)

#[local] Arguments logEntry : simpl never.
#[local] Arguments userId_of : simpl never.

Lemma event_time_frame timestamp w :
  disk (exec (event_time timestamp) w).2 = disk w ∧
  fs_calls (exec (event_time timestamp) w).2 = fs_calls w ∧
  fs_ok (exec (event_time timestamp) w).2 = fs_ok w.
Proof.
  destruct timestamp as [s |]; [| done].
  unfold event_time. by destruct (truthy (Some s)).
Qed.

Lemma event_time_result timestamp w :
  (exec (event_time timestamp) w).1 = stamp timestamp (clock w (clock_reads w)).
Proof.
  destruct timestamp as [s |]; [| done].
  unfold event_time, stamp. by destruct (truthy (Some s)).
Qed.

(** The clock is read when the client gave no truthy timestamp, and only
    then. *)
Lemma event_time_clock timestamp w :
  clock (exec (event_time timestamp) w).2 = clock w ∧
  clock_reads (exec (event_time timestamp) w).2
  = if truthy timestamp then clock_reads w else S (clock_reads w).
Proof.
  destruct timestamp as [s |]; [| done].
  unfold event_time. by destruct (truthy (Some s)).
Qed.

Lemma logEntry_id log_id timestamp userId ip e :
  EventLog.log_id (logEntry log_id timestamp userId ip e) = log_id.
Proof. done. Qed.

Lemma logEntry_timestamp log_id timestamp userId ip e :
  EventLog.timestamp (logEntry log_id timestamp userId ip e) = timestamp.
Proof. done. Qed.

(** The entry built for an input carries the fields of the input. *)
Lemma logEntry_logged_as log_id timestamp ip sessions e :
  logged_as ip sessions
    (logEntry log_id timestamp (userId_of sessions (EventInput.sessionId e)) ip e)
    e.
Proof. by repeat split. Qed.

Lemma null_entries_null events :
  null_entries (JNull :: events) = JNull :: null_entries events.
Proof. done. Qed.

Lemma null_entries_value e events :
  null_entries (JValue e :: events) = null_entries events.
Proof. done. Qed.

Lemma destructured_null events : destructured (JNull :: events) = destructured events.
Proof. done. Qed.

Lemma destructured_value e events :
  destructured (JValue e :: events) = e :: destructured events.
Proof. done. Qed.

(** The loop over a batch: the entries it pushes, the identifiers it gives
    them, the two counters and the timestamps. *)
Lemma batch_loop_result ip sessions events st w :
  ∃ entries,
    st_eventLogs (exec (batch_loop ip sessions events st) w).1
    = st_eventLogs st ++ entries ∧
    Forall2 (logged_as ip sessions) entries (destructured events) ∧
    EventLog.log_id <$> entries
    = (λ i, Z.of_nat (length (st_eventLogs st)) + st_loggedCount st
            + 2 * Z.of_nat i + 1) <$> seq 0 (length (destructured events)) ∧
    st_loggedCount (exec (batch_loop ip sessions events st) w).1
    = st_loggedCount st + Z.of_nat (length (destructured events)) ∧
    st_failedCount (exec (batch_loop ip sessions events st) w).1
    = st_failedCount st + Z.of_nat (length (null_entries events)) ∧
    disk (exec (batch_loop ip sessions events st) w).2 = disk w ∧
    fs_calls (exec (batch_loop ip sessions events st) w).2 = fs_calls w ∧
    fs_ok (exec (batch_loop ip sessions events st) w).2 = fs_ok w ∧
    EventLog.timestamp <$> entries
    = stamps (clock w) (clock_reads w) (destructured events).
Proof.
  revert st w. induction events as [| [| e] events IH]; intros st w.
  - exists []. cbn. rewrite app_nil_r. repeat split; try done; lia.
  - cbn [batch_loop].
    destruct (IH (mkBatchState (st_eventLogs st) (st_loggedCount st)
                               (st_failedCount st + 1)) w)
      as (entries & E1 & E2 & E3 & E4 & E5 & E6 & E7 & E8 & E9).
    exists entries. cbn in E1, E3, E4, E5.
    rewrite null_entries_null, destructured_null.
    repeat split; try done. rewrite E5. cbn [length]. lia.
  - cbn [batch_loop]. rewrite exec_bind.
    destruct (event_time_frame (EventInput.timestamp e) w) as (D1 & D2 & D3).
    destruct (event_time_clock (EventInput.timestamp e) w) as (D4 & D5).
    pose proof (event_time_result (EventInput.timestamp e) w) as D6.
    set (r := exec (event_time (EventInput.timestamp e)) w) in *.
    set (entry := logEntry _ _ _ _ _).
    destruct (IH (mkBatchState (st_eventLogs st ++ [entry])
                               (st_loggedCount st + 1) (st_failedCount st)) r.2)
      as (entries & E1 & E2 & E3 & E4 & E5 & E6 & E7 & E8 & E9).
    exists (entry :: entries). cbn in E1, E3, E4, E5.
    rewrite null_entries_value, destructured_value.
    split; [by rewrite E1, <- app_assoc |].
    split; [constructor; [apply logEntry_logged_as | done] |].
    split.
    { cbn [fmap list_fmap seq length]. f_equal; [subst entry; rewrite logEntry_id; lia |].
      rewrite E3, <- fmap_S_seq, <- list_fmap_compose.
      apply list_fmap_ext. intros i x _. cbn. rewrite length_app. cbn. lia. }
    split; [rewrite E4; cbn [length]; lia |].
    split; [by rewrite E5 |].
    split; [by rewrite E6 |]. split; [by rewrite E7 |]. split; [by rewrite E8 |].
    cbn [fmap list_fmap stamps]. f_equal.
    + subst entry. by rewrite logEntry_timestamp.
    + by rewrite E9, D4, D5.
Qed.

#[local] Arguments batch_loop : simpl never.

Lemma destructured_or_null events :
  (length (destructured events) + length (null_entries events))%nat = length events.
Proof.
  induction events as [| [| e] events IH]; [done | |].
  - rewrite null_entries_null, destructured_null. cbn [length]. lia.
  - rewrite null_entries_value, destructured_value. cbn [length]. lia.
Qed.

(** The answer to a batch does not depend on the file system. *)
Lemma log_batch_response w ip events :
  events ≠ [] →
  status_code (exec (log_batch ip (Some events)) w).1 = 201 ∧
  data (exec (log_batch ip (Some events)) w).1
  = BatchData (Z.of_nat (length (destructured events)))
              (Z.of_nat (length (null_entries events))).
Proof.
  intros Hne. destruct events as [| e events]; [done |].
  unfold log_batch. cbn. rewrite exec_bind.
  match goal with
  | |- context [exec (batch_loop ip ?ss ?es ?st) ?w'] =>
      destruct (batch_loop_result ip ss es st w')
        as (entries & E1 & E2 & E3 & E4 & E5 & E6 & E7 & E8 & E9)
  end.
  cbn. rewrite E4, E5. cbn. split; [done |]. f_equal; lia.
Qed.

(** What a batch leaves in event_logs.json. *)
Lemma log_batch_ledger w ip events :
  events ≠ [] → healthy w →
  ∃ entries,
    event_logs (disk (exec (log_batch ip (Some events)) w).2)
    = event_logs (disk w) ++ entries ∧
    Forall2 (logged_as ip (sessions (disk w))) entries (destructured events) ∧
    EventLog.log_id <$> entries
    = (λ i, Z.of_nat (length (event_logs (disk w))) + 2 * Z.of_nat i + 1)
      <$> seq 0 (length (destructured events)) ∧
    EventLog.timestamp <$> entries
    = stamps (clock w) (clock_reads w) (destructured events).
Proof.
  intros Hne H. destruct events as [| e events]; [done |].
  unfold log_batch. cbn. rewrite !H. cbn. rewrite exec_bind.
  match goal with
  | |- context [exec (batch_loop ip ?ss ?es ?st) ?w'] =>
      destruct (batch_loop_result ip ss es st w')
        as (entries & E1 & E2 & E3 & E4 & E5 & E6 & E7 & E8 & E9)
  end.
  exists entries. cbn in *. rewrite E8, E6, H. cbn.
  split; [done |]. split; [done |]. split; [| done].
  rewrite E3. apply list_fmap_ext. intros i x _. lia.
Qed.

(** C8, as the code has it.  The body of the loop throws on a null entry
    and on no other: any other entry is destructured, a property it lacks
    being undefined.  On a storage whose reads and writes succeed, a batch
    that is not empty is processed entry by entry: every null entry is
    counted in [failedEvents] and skipped, and the loop goes on; every
    other entry is logged, whatever properties it has, and the entries
    logged are appended to the ledger in the order of the batch, each with
    the session identifier, the event type, the payloads and the device
    data of its input, the address of the request, the user of the first
    session with its session identifier, and the client's timestamp or,
    for want of one, the next reading of the clock; the answer is 201 and
    reports [eventsLogged] equal to the number of appended entries, by
    which the ledger grows, and [failedEvents] equal to the number of null
    entries. *)
Theorem batch_skips_null_entries (w : World) (ip : string)
    (events : list EventJSON) :
  events ≠ [] →
  healthy w →
  let r := exec (log_batch ip (Some events)) w in
  let inputs := destructured events in
  (length inputs + length (null_entries events))%nat = length events ∧
  status_code r.1 = 201 ∧
  data r.1 = BatchData (Z.of_nat (length inputs))
                       (Z.of_nat (length (null_entries events))) ∧
  ∃ entries,
    event_logs (disk r.2) = event_logs (disk w) ++ entries ∧
    length entries = length inputs ∧
    Forall2 (logged_as ip (sessions (disk w))) entries inputs ∧
    EventLog.timestamp <$> entries = stamps (clock w) (clock_reads w) inputs.
Proof.
  intros Hne H r inputs.
  split; [apply destructured_or_null |].
  destruct (log_batch_response w ip events Hne) as [Hs Hd].
  split; [done |]. split; [done |].
  destruct (log_batch_ledger w ip events Hne H) as (entries & E1 & E2 & E3 & E4).
  exists entries. split; [done |].
  split; [by eapply Forall2_length | done].
Qed.

Lemma batch_skips_null_entries_witness :
  [click "session_a"; click "session_a"; JNull; click "session_a"] ≠ [] ∧
  healthy first_start ∧
  let events := [click "session_a"; click "session_a"; JNull; click "session_a"] in
  let r := exec (log_batch "203.0.113.7" (Some events)) first_start in
  let inputs := destructured events in
  (length inputs + length (null_entries events))%nat = length events ∧
  status_code r.1 = 201 ∧
  data r.1 = BatchData (Z.of_nat (length inputs))
                       (Z.of_nat (length (null_entries events))) ∧
  ∃ entries,
    event_logs (disk r.2) = event_logs (disk first_start) ++ entries ∧
    length entries = length inputs ∧
    Forall2 (logged_as "203.0.113.7" (sessions (disk first_start)))
            entries inputs ∧
    EventLog.timestamp <$> entries
    = stamps (clock first_start) (clock_reads first_start) inputs.
Proof.
  split; [discriminate |].
  split; [apply first_start_healthy |].
  apply (batch_skips_null_entries first_start "203.0.113.7"
           [click "session_a"; click "session_a"; JNull; click "session_a"]).
  - discriminate.
  - apply first_start_healthy.
Defined.

(** The scenario of the specification holds when the malformed entry is
    null: three valid events and a null entry. *)
Example batch_of_three_and_one :
  let r := exec (log_batch "203.0.113.7"
             (Some [click "session_a"; click "session_a"; JNull;
                    click "session_a"])) first_start in
  data r.1 = BatchData 3 1 ∧
  length (event_logs (disk r.2)) = (length (event_logs (disk first_start)) + 3)%nat.
Proof. by vm_compute. Qed.

(** C8, as stated, fails on a malformed entry that is not null.  Nothing
    in the loop validates an entry: on three valid events and the empty
    object the answer is [eventsLogged] 4 and [failedEvents] 0, where the
    specification gives 3 and 1, and the ledger grows by 4, the fourth
    entry having no session identifier and no event type. *)
Lemma malformed_entry_is_logged :
  let events :=
    [click "session_a"; click "session_a"; empty_object; click "session_a"] in
  let r := exec (log_batch "203.0.113.7" (Some events)) first_start in
  healthy first_start ∧
  spec_malformed <$> events = [false; false; true; false] ∧
  spec_batch_data events = BatchData 3 1 ∧
  data r.1 = BatchData 4 0 ∧
  length (event_logs (disk r.2)) = (length (event_logs (disk first_start)) + 4)%nat ∧
  EventLog.event_type <$> event_logs (disk r.2)
  = [Some "click"; Some "click"; None; Some "click"] ∧
  EventLog.session_id <$> event_logs (disk r.2)
  = [Some "session_a"; Some "session_a"; None; Some "session_a"].
Proof.
  split; [apply first_start_healthy |].
  by vm_compute.
Qed.

(** The identifiers a batch assigns: the array has already grown by the
    number of logged events when that number is added to its length, so
    that the identifiers advance by two. *)
Lemma batch_log_ids (w : World) (ip : string) (events : list EventJSON) :
  events ≠ [] →
  healthy w →
  ∃ entries,
    event_logs (disk (exec (log_batch ip (Some events)) w).2)
    = event_logs (disk w) ++ entries ∧
    EventLog.log_id <$> entries
    = (λ i, Z.of_nat (length (event_logs (disk w))) + 2 * Z.of_nat i + 1)
      <$> seq 0 (length (destructured events)).
Proof.
  intros Hne H.
  destruct (log_batch_ledger w ip events Hne H) as (entries & E1 & E2 & E3 & E4).
  by exists entries.
Qed.

(** C3 fails on the code.  On a first start, where the ledger is empty and
    its maximum [log_id] is 0, a batch of three valid events gets the
    identifiers 1, 3 and 5, where the specification gives 1, 2 and 3; the
    two single events logged next get 4 and 5, and 5 is then the
    identifier of two records. *)
Theorem batch_log_ids_not_contiguous :
  let batch := [click "session_a"; click "session_a"; click "session_a"] in
  let after_batch := (exec (log_batch "203.0.113.7" (Some batch)) first_start).2 in
  let single :=
    log_event "203.0.113.7"
              (EventInput.mk None (Some "session_a") (Some "keydown") None None) in
  event_logs (disk first_start) = [] ∧
  EventLog.log_id <$> event_logs (disk after_batch) = [1; 3; 5] ∧
  spec_batch_log_ids (event_logs (disk first_start)) 3 = [1; 2; 3] ∧
  EventLog.log_id <$>
    event_logs (disk (exec (_ ← single; single) after_batch).2)
  = [1; 3; 5; 4; 5].
Proof. by vm_compute. Qed.

(* ===================================================================== *)
(** * Storage errors *)
(* ===================================================================== *)

Lemma writeJSON_result (f : File) (data : list (record_of f)) (w : World) :
  (exec (writeJSON f data) w).1 = fs_ok w (fs_calls w) ∧
  disk (exec (writeJSON f data) w).2
  = if fs_ok w (fs_calls w) then disk_set f data (disk w) else disk w.
Proof. done. Qed.

(** The answer to an event: a success, with the identifier given to the
    entry, whatever the outcomes of the file operations. *)
Lemma log_event_response w ip body :
  ∃ logId timestamp sent,
    (exec (log_event ip body) w).1
    = mkResponse 201 (EventData logId (EventInput.eventType body) timestamp) sent.
Proof.
  unfold log_event. cbn. rewrite exec_bind.
  destruct (EventInput.timestamp body) as [s |];
    [unfold event_time; destruct (truthy (Some s)) | ];
    cbn; by do 3 eexists.
Qed.

Lemma log_batch_answer w ip e events :
  ∃ sent,
    (exec (log_batch ip (Some (e :: events))) w).1
    = mkResponse 201
        (BatchData (Z.of_nat (length (destructured (e :: events))))
                   (Z.of_nat (length (null_entries (e :: events))))) sent.
Proof.
  destruct (log_batch_response w ip (e :: events)) as [Hs Hd]; [done |].
  destruct (exec (log_batch ip (Some (e :: events))) w).1 as [code d sent].
  cbn in Hs, Hd. subst. by exists sent.
Qed.

Lemma login_status w ip body :
  status_code (exec (login ip body) w).1 ∈ [200; 400; 401].
Proof.
  unfold login.
  destruct (LoginBody.username body) as [username |]; [| by right; left].
  destruct (LoginBody.password body) as [password |]; [| by right; left].
  destruct (truthy (Some username) && truthy (Some password));
    [| by right; left].
  unfold login_checked. cbn.
  destruct (find_user _ username) as [user |]; cbn.
  - destruct (bool_decide (User.password user = password)); cbn;
      rewrite exec_bind; cbn; [by left | by right; right; left].
  - rewrite exec_bind. cbn. by right; right; left.
Qed.

(** C9, as the code has it.  [writeJSON] catches the error of a failed
    write and returns [false], leaving the collection as it was, and no
    handler reads that result: whatever the outcomes of the file
    operations, an event is answered with 201 and the identifier of its
    entry, a batch that is not empty with 201 and its two counts, a login
    with 200, 401 or 400, and none of the operations that persist records
    answers with a server error. *)
Theorem write_failures_not_surfaced (w : World) (ip : string) :
  (∀ (f : File) (data : list (record_of f)),
     (exec (writeJSON f data) w).1 = fs_ok w (fs_calls w) ∧
     disk (exec (writeJSON f data) w).2
     = if fs_ok w (fs_calls w) then disk_set f data (disk w) else disk w) ∧
  (∀ body, ∃ logId timestamp sent,
     (exec (log_event ip body) w).1
     = mkResponse 201 (EventData logId (EventInput.eventType body) timestamp)
                  sent) ∧
  (∀ e events, ∃ sent,
     (exec (log_batch ip (Some (e :: events))) w).1
     = mkResponse 201
         (BatchData (Z.of_nat (length (destructured (e :: events))))
                    (Z.of_nat (length (null_entries (e :: events))))) sent) ∧
  (∀ body, status_code (exec (login ip body) w).1 ∈ [200; 400; 401]).
Proof.
  split; [intros f data; apply writeJSON_result |].
  split; [intros body; apply log_event_response |].
  split; [intros e events; apply log_batch_answer |].
  intros body. apply login_status.
Qed.

(** C9, as stated, fails.  When the write of event_logs.json fails, the
    event is answered with 201 and the identifier 1, and the ledger stays
    empty; when the three writes of a successful login fail, the login is
    answered with 200 and a session token, and neither the attempt, nor
    the session, nor the reputation of the address is stored. *)
Lemma failed_write_answered_with_success :
  (fs_ok third_call_fails 2 = false ∧
   (exec (log_event "203.0.113.7" (keydown "session_a")) third_call_fails).1
   = mkResponse 201
       (EventData 1 (Some "keydown") (ServerTime 1700000000000))
       1700000000001 ∧
   event_logs
     (disk (exec (log_event "203.0.113.7" (keydown "session_a"))
                 third_call_fails).2) = []) ∧
  ((exec (login "203.0.113.7" (admin_login "session_a" None))
         login_writes_fail).1
   = mkResponse 200
       (LoginData 1 "admin" sample_token 1700086400001 (Some "session_a"))
       1700000000005 ∧
   disk (exec (login "203.0.113.7" (admin_login "session_a" None))
              login_writes_fail).2 = initial_disk).
Proof. by vm_compute. Qed.

(* ===================================================================== *)
(** * Client address *)
(* ===================================================================== *)

Lemma or_else_truthy (a b : option string) :
  truthy b = true → truthy (or_else a b) = true.
Proof. unfold or_else. by destruct (truthy a) eqn:Ha. Qed.

Lemma or_else_cases (a b : option string) :
  (truthy a = true ∧ or_else a b = a) ∨ (truthy a = false ∧ or_else a b = b).
Proof. unfold or_else. destruct (truthy a); auto. Qed.

Lemma or_else_l (a b : option string) : truthy a = true → or_else a b = a.
Proof. unfold or_else. by intros ->. Qed.

Lemma truthy_Some (s : string) : s ≠ "" → truthy (Some s) = true.
Proof. intros Hs. cbn. by rewrite bool_decide_eq_false_2. Qed.

Lemma before_comma_no_comma (s : string) (c : ascii) :
  c ∈ String.list_ascii_of_string (before_comma s) → c ≠ ","%char.
Proof.
  induction s as [| d s IH]; cbn.
  - by intros ?%elem_of_nil.
  - case_bool_decide as Hd; cbn; [by intros ?%elem_of_nil |].
    intros [-> | Hc]%elem_of_cons; [done | by apply IH].
Qed.

Lemma before_comma_prefix (s : string) :
  ∃ rest, s = before_comma s +:+ rest.
Proof.
  induction s as [| d s [rest IH]]; cbn.
  - by exists "".
  - case_bool_decide; cbn; [by eexists |].
    exists rest. change (String d s = String d (before_comma s +:+ rest)).
    by f_equal.
Qed.

(** X1.  The address that [getClientIP] returns is never the empty string,
    and it is either 127.0.0.1 or one of the three sources: the first item
    of the header x-forwarded-for, the remote address of the connection or
    the remote address of the socket. *)
Theorem getClientIP_never_empty (req : Request.t) :
  getClientIP req ≠ "" ∧
  (getClientIP req = "127.0.0.1" ∨
   Some (getClientIP req) ∈
     [ before_comma <$> Request.x_forwarded_for req;
       Request.connection_remoteAddress req;
       Request.socket_remoteAddress req ]).
Proof.
  split.
  - unfold getClientIP.
    pose proof (or_else_truthy
      (or_else (or_else (before_comma <$> Request.x_forwarded_for req)
                        (Request.connection_remoteAddress req))
               (Request.socket_remoteAddress req))
      (Some "127.0.0.1") eq_refl) as Ht.
    destruct (or_else _ (Some "127.0.0.1")) as [s |]; [| done].
    cbn in *. intros ->. done.
  - unfold getClientIP.
    set (h := before_comma <$> Request.x_forwarded_for req).
    set (c := Request.connection_remoteAddress req).
    set (s := Request.socket_remoteAddress req).
    destruct (or_else_cases (or_else (or_else h c) s) (Some "127.0.0.1"))
      as [[Ht ->] | [_ ->]]; [| by left].
    right.
    assert (Hin : or_else (or_else h c) s ∈ [h; c; s]).
    { destruct (or_else_cases (or_else h c) s) as [[_ ->] | [_ ->]].
      - destruct (or_else_cases h c) as [[_ ->] | [_ ->]]; set_solver.
      - set_solver. }
    by destruct (or_else (or_else h c) s) as [x |].
Qed.

(** X2.  When the header x-forwarded-for starts with a non-empty item, the
    address is that item, the text of the header before its first comma,
    whatever the remote address of the connection: it contains no comma,
    and nothing of it is trimmed or checked. *)
Theorem getClientIP_trusts_header (req : Request.t) (header : string) :
  Request.x_forwarded_for req = Some header →
  before_comma header ≠ "" →
  getClientIP req = before_comma header ∧
  (∃ rest, header = getClientIP req +:+ rest) ∧
  ∀ c, c ∈ String.list_ascii_of_string (getClientIP req) → c ≠ ","%char.
Proof.
  intros Hh Hne.
  assert (E : getClientIP req = before_comma header).
  { unfold getClientIP. rewrite Hh. cbn [fmap option_fmap option_map].
    by rewrite !(or_else_l (Some (before_comma header)))
      by by apply truthy_Some. }
  rewrite E. split; [done |]. split.
  - apply before_comma_prefix.
  - apply before_comma_no_comma.
Qed.

Lemma getClientIP_trusts_header_witness :
  Request.x_forwarded_for
    (Request.mk (Some "198.51.100.9, 10.0.0.1") (Some "10.0.0.1") (Some "10.0.0.1"))
  = Some "198.51.100.9, 10.0.0.1" ∧
  before_comma "198.51.100.9, 10.0.0.1" ≠ "" ∧
  getClientIP
    (Request.mk (Some "198.51.100.9, 10.0.0.1") (Some "10.0.0.1") (Some "10.0.0.1"))
  = before_comma "198.51.100.9, 10.0.0.1" ∧
  (∃ rest, "198.51.100.9, 10.0.0.1"
           = getClientIP
               (Request.mk (Some "198.51.100.9, 10.0.0.1") (Some "10.0.0.1")
                           (Some "10.0.0.1")) +:+ rest) ∧
  ∀ c, c ∈ String.list_ascii_of_string
             (getClientIP
                (Request.mk (Some "198.51.100.9, 10.0.0.1") (Some "10.0.0.1")
                            (Some "10.0.0.1"))) →
       c ≠ ","%char.
Proof.
  split; [reflexivity |].
  split; [discriminate |].
  apply (getClientIP_trusts_header
           (Request.mk (Some "198.51.100.9, 10.0.0.1") (Some "10.0.0.1")
                       (Some "10.0.0.1"))
           "198.51.100.9, 10.0.0.1").
  - reflexivity.
  - discriminate.
Defined.

(* ===================================================================== *)
(** * First start *)
(* ===================================================================== *)

Lemma dir_get_set (f : File) (c : list (record_of f)) (d : DataDir) :
  dir_get f (dir_set f c d) = Some c.
Proof. by destruct f. Qed.

Lemma dir_get_set_ne (f f' : File) (c : list (record_of f)) (d : DataDir) :
  f ≠ f' → dir_get f' (dir_set f c d) = dir_get f' d.
Proof. by destruct f, f'. Qed.

Lemma dir_exists_set (f : File) (c : list (record_of f)) (d : DataDir) :
  dir_exists (dir_set f c d) = dir_exists d.
Proof. by destruct f. Qed.

(** On a sound file system, in an existing directory, [ensure_file] leaves
    an existing file alone and creates a missing one. *)
Lemma ensure_file_sound (f : File) (c : list (record_of f)) (b : Boot) :
  sound b → dir_exists (data_dir b) = true →
  (ensure_file f c b).1 = true ∧
  sound (ensure_file f c b).2 ∧
  data_dir (ensure_file f c b).2
  = match dir_get f (data_dir b) with
    | Some _ => data_dir b
    | None => dir_set f c (data_dir b)
    end.
Proof.
  intros H Hd. unfold ensure_file, access, writeFile. cbn. rewrite H. cbn.
  destruct (dir_get f (data_dir b)) as [c' |] eqn:E; cbn.
  - done.
  - rewrite H, Hd. cbn. done.
Qed.

Lemma ensure_empty_sound (files : list File) (b : Boot) :
  sound b → dir_exists (data_dir b) = true →
  (ensure_empty files b).1 = true ∧
  sound (ensure_empty files b).2 ∧
  dir_exists (data_dir (ensure_empty files b).2) = true ∧
  ∀ f, dir_get f (data_dir (ensure_empty files b).2)
       = match dir_get f (data_dir b) with
         | Some c => Some c
         | None => if bool_decide (f ∈ files) then Some [] else None
         end.
Proof.
  revert b. induction files as [| file files IH]; intros b H Hd.
  - cbn. repeat split; try done. intros f. by destruct (dir_get f _).
  - cbn [ensure_empty].
    destruct (ensure_file_sound file [] b H Hd) as (E1 & E2 & E3).
    rewrite E1.
    assert (Hd' : dir_exists (data_dir (ensure_file file [] b).2) = true).
    { rewrite E3. destruct (dir_get file _); [done |].
      by rewrite dir_exists_set. }
    destruct (IH _ E2 Hd') as (I1 & I2 & I3 & I4).
    split; [done |]. split; [done |]. split; [done |].
    intros f. rewrite I4, E3.
    destruct (decide (file = f)) as [<- | Hne].
    + destruct (dir_get file (data_dir b)) as [c |] eqn:E; rewrite ?E; [done |].
      rewrite dir_get_set. by rewrite bool_decide_eq_true_2 by by left.
    + assert (Hf : dir_get f
                (match dir_get file (data_dir b) with
                 | Some _ => data_dir b
                 | None => dir_set file [] (data_dir b)
                 end) = dir_get f (data_dir b)).
      { destruct (dir_get file (data_dir b)); [done |].
        by apply dir_get_set_ne. }
      rewrite Hf. destruct (dir_get f (data_dir b)); [done |].
      rewrite (bool_decide_ext (f ∈ file :: files) (f ∈ files)); [done |].
      rewrite elem_of_cons. split; [by intros [-> | ?] | by right].
Qed.

Lemma initializeStorage_sound (b : Boot) :
  sound b →
  (initializeStorage b).1 = true ∧
  sound (initializeStorage b).2 ∧
  dir_exists (data_dir (initializeStorage b).2) = true ∧
  ∀ f, dir_get f (data_dir (initializeStorage b).2)
       = Some (default (initial_content f) (dir_get f (data_dir b))).
Proof.
  intros H. unfold initializeStorage.
  assert (M1 : (mkdir b).1 = true) by (cbn; apply H).
  assert (M2 : sound (mkdir b).2) by (intros n; apply H).
  assert (M3 : dir_exists (data_dir (mkdir b).2) = true)
    by (cbn; by rewrite H).
  assert (M4 : ∀ f, dir_get f (data_dir (mkdir b).2) = dir_get f (data_dir b))
    by (intros f; cbn; rewrite H; by destruct f).
  rewrite M1.
  destruct (ensure_file_sound USERS_FILE initialUsers _ M2 M3) as (E1 & E2 & E3).
  rewrite E1.
  assert (Hd : dir_exists (data_dir (ensure_file USERS_FILE initialUsers (mkdir b).2).2) = true).
  { rewrite E3. destruct (dir_get USERS_FILE _); [done |].
    by rewrite dir_exists_set. }
  destruct (ensure_empty_sound
    [SESSIONS_FILE; EVENT_LOGS_FILE; LOGIN_ATTEMPTS_FILE; IP_REPUTATION_FILE]
    _ E2 Hd) as (I1 & I2 & I3 & I4).
  split; [done |]. split; [done |]. split; [done |].
  intros f. rewrite I4, E3. rewrite <- (M4 f).
  destruct (decide (f = USERS_FILE)) as [-> | Hf].
  - destruct (dir_get USERS_FILE (data_dir (mkdir b).2)) as [c |] eqn:EU.
    + by rewrite EU.
    + by rewrite dir_get_set.
  - assert (Hg : dir_get f
               (match dir_get USERS_FILE (data_dir (mkdir b).2) with
                | Some _ => data_dir (mkdir b).2
                | None => dir_set USERS_FILE initialUsers (data_dir (mkdir b).2)
                end) = dir_get f (data_dir (mkdir b).2)).
    { destruct (dir_get USERS_FILE (data_dir (mkdir b).2)); [done |].
      by apply dir_get_set_ne. }
    rewrite Hg. destruct (dir_get f (data_dir (mkdir b).2)); [done |].
    by destruct f.
Qed.

Lemma DataDir_eq (d d' : DataDir) :
  dir_exists d = dir_exists d' →
  (∀ f, dir_get f d = dir_get f d') →
  d = d'.
Proof.
  destruct d, d'. cbn. intros -> H.
  pose proof (H USERS_FILE). pose proof (H SESSIONS_FILE).
  pose proof (H EVENT_LOGS_FILE). pose proof (H LOGIN_ATTEMPTS_FILE).
  pose proof (H IP_REPUTATION_FILE). cbn in *. congruence.
Qed.

Lemma first_boot_sound : sound first_boot.
Proof. by intros n. Qed.

Lemma second_boot_sound : sound second_boot.
Proof. by intros n. Qed.

(** X3.  On a file system whose calls do not fail for a reason of their
    own, [initializeStorage] reaches the end of its [try] block, and
    afterwards the data directory and its five files exist: a file that
    existed keeps its content, whatever it is, users.json is created with
    the three sample users when it was missing, and each other missing file
    is created as the empty array. *)
Theorem initializeStorage_completes (b : Boot) :
  sound b →
  (initializeStorage b).1 = true ∧
  dir_exists (data_dir (initializeStorage b).2) = true ∧
  ∀ f, dir_get f (data_dir (initializeStorage b).2)
       = Some (default (initial_content f) (dir_get f (data_dir b))).
Proof.
  intros H. destruct (initializeStorage_sound b H) as (E1 & _ & E3 & E4).
  done.
Qed.

Lemma initializeStorage_completes_witness :
  sound second_boot ∧
  (initializeStorage second_boot).1 = true ∧
  dir_exists (data_dir (initializeStorage second_boot).2) = true ∧
  ∀ f, dir_get f (data_dir (initializeStorage second_boot).2)
       = Some (default (initial_content f) (dir_get f (data_dir second_boot))).
Proof.
  split; [apply second_boot_sound |].
  apply (initializeStorage_completes second_boot).
  apply second_boot_sound.
Defined.

(** The data directory of a first start is the one the claims start from. *)
Example first_boot_gives_initial_disk :
  (initializeStorage first_boot).1 = true ∧
  disk_of (data_dir (initializeStorage first_boot).2) = initial_disk.
Proof. by vm_compute. Qed.

(** X4.  [initializeStorage] is idempotent on a file system whose calls do
    not fail for a reason of their own: a second start of the server
    leaves the data directory as the first start left it. *)
Theorem initializeStorage_idempotent (b : Boot) :
  sound b →
  data_dir (initializeStorage (initializeStorage b).2).2
  = data_dir (initializeStorage b).2.
Proof.
  intros H. destruct (initializeStorage_sound b H) as (_ & E2 & E3 & E4).
  destruct (initializeStorage_sound _ E2) as (_ & _ & F3 & F4).
  apply DataDir_eq; [by rewrite E3, F3 |].
  intros f. by rewrite F4, E4.
Qed.

Lemma initializeStorage_idempotent_witness :
  sound first_boot ∧
  data_dir (initializeStorage (initializeStorage first_boot).2).2
  = data_dir (initializeStorage first_boot).2.
Proof.
  split; [apply first_boot_sound |].
  apply (initializeStorage_idempotent first_boot).
  apply first_boot_sound.
Defined.

(* ===================================================================== *)
(** * Event Recorder: single events *)
(* ===================================================================== *)

(** What a single event leaves in the store and in its answer. *)
Lemma log_event_run w ip body :
  healthy w →
  let entry :=
    logEntry (Z.of_nat (length (event_logs (disk w))) + 1)
             (stamp (EventInput.timestamp body) (clock w (clock_reads w)))
             (userId_of (sessions (disk w)) (EventInput.sessionId body))
             ip body in
  disk (exec (log_event ip body) w).2
  = disk_set EVENT_LOGS_FILE (event_logs (disk w) ++ [entry]) (disk w) ∧
  status_code (exec (log_event ip body) w).1 = 201 ∧
  data (exec (log_event ip body) w).1
  = EventData (Z.of_nat (length (event_logs (disk w))) + 1)
              (EventInput.eventType body)
              (stamp (EventInput.timestamp body) (clock w (clock_reads w))).
Proof.
  intros H entry. subst entry.
  unfold log_event. cbn. rewrite !H. cbn. rewrite exec_bind.
  rewrite event_time_result.
  destruct (event_time_frame (EventInput.timestamp body)
    {| disk := disk w; fs_ok := fs_ok w; fs_calls := S (S (fs_calls w));
       clock := clock w; clock_reads := clock_reads w;
       entropy := entropy w; draws := draws w |}) as (D1 & D2 & D3).
  cbn in *. rewrite D3, D1, H. cbn. done.
Qed.

(** X5.  On a storage whose reads and writes succeed, POST /api/log/event
    appends exactly one entry at the end of event_logs.json and changes no
    other file; the entry has [log_id] equal to the number of entries plus
    1, the session identifier, the event type and the address of the
    request, and the user of the first session with that identifier; the
    answer is 201 and echoes the identifier, the event type and the
    timestamp of the entry. *)
Theorem log_event_appends (w : World) (ip : string) (body : EventInput.t) :
  healthy w →
  ∃ entry,
    event_logs (disk (exec (log_event ip body) w).2)
    = event_logs (disk w) ++ [entry] ∧
    EventLog.log_id entry = Z.of_nat (length (event_logs (disk w))) + 1 ∧
    EventLog.session_id entry = EventInput.sessionId body ∧
    EventLog.event_type entry = EventInput.eventType body ∧
    EventLog.ip_address entry = ip ∧
    EventLog.user_id entry
    = or_null (Session.user_id <$>
                 find_session (sessions (disk w)) (EventInput.sessionId body)) ∧
    status_code (exec (log_event ip body) w).1 = 201 ∧
    data (exec (log_event ip body) w).1
    = EventData (EventLog.log_id entry) (EventInput.eventType body)
                (EventLog.timestamp entry) ∧
    users (disk (exec (log_event ip body) w).2) = users (disk w) ∧
    sessions (disk (exec (log_event ip body) w).2) = sessions (disk w) ∧
    login_attempts (disk (exec (log_event ip body) w).2)
    = login_attempts (disk w) ∧
    ip_reputation (disk (exec (log_event ip body) w).2)
    = ip_reputation (disk w).
Proof.
  intros H. destruct (log_event_run w ip body H) as (Hd & Hs & Hr).
  eexists. rewrite Hd, Hs, Hr. cbn. split; [reflexivity |]. done.
Qed.

Lemma log_event_appends_witness :
  healthy first_start ∧
  ∃ entry,
    event_logs
      (disk (exec (log_event "203.0.113.7" (keydown "session_a")) first_start).2)
    = event_logs (disk first_start) ++ [entry] ∧
    EventLog.log_id entry
    = Z.of_nat (length (event_logs (disk first_start))) + 1 ∧
    EventLog.session_id entry = EventInput.sessionId (keydown "session_a") ∧
    EventLog.event_type entry = EventInput.eventType (keydown "session_a") ∧
    EventLog.ip_address entry = "203.0.113.7" ∧
    EventLog.user_id entry
    = or_null (Session.user_id <$>
                 find_session (sessions (disk first_start))
                   (EventInput.sessionId (keydown "session_a"))) ∧
    status_code
      (exec (log_event "203.0.113.7" (keydown "session_a")) first_start).1
    = 201 ∧
    data (exec (log_event "203.0.113.7" (keydown "session_a")) first_start).1
    = EventData (EventLog.log_id entry)
                (EventInput.eventType (keydown "session_a"))
                (EventLog.timestamp entry) ∧
    users
      (disk (exec (log_event "203.0.113.7" (keydown "session_a")) first_start).2)
    = users (disk first_start) ∧
    sessions
      (disk (exec (log_event "203.0.113.7" (keydown "session_a")) first_start).2)
    = sessions (disk first_start) ∧
    login_attempts
      (disk (exec (log_event "203.0.113.7" (keydown "session_a")) first_start).2)
    = login_attempts (disk first_start) ∧
    ip_reputation
      (disk (exec (log_event "203.0.113.7" (keydown "session_a")) first_start).2)
    = ip_reputation (disk first_start).
Proof.
  split; [apply first_start_healthy |].
  apply (log_event_appends first_start "203.0.113.7" (keydown "session_a")).
  apply first_start_healthy.
Defined.

Lemma numbered_events_snoc ledger entry :
  numbered_events ledger →
  EventLog.log_id entry = Z.of_nat (length ledger) + 1 →
  numbered_events (ledger ++ [entry]).
Proof.
  unfold numbered_events. intros Hl Ha.
  rewrite fmap_app, Hl, length_app, Nat.add_1_r, seq_S, fmap_app. cbn.
  rewrite Ha. do 3 f_equal. lia.
Qed.

Lemma log_event_numbered w ip body :
  numbered_events (event_logs (disk w)) →
  numbered_events (event_logs (disk (exec (log_event ip body) w).2)).
Proof.
  intros Hn. unfold log_event. cbn. rewrite exec_bind.
  match goal with
  | |- context [exec (event_time ?t) ?w'] =>
      destruct (event_time_frame t w') as (D1 & D2 & D3);
      set (r := exec (event_time t) w') in *
  end.
  cbn in *. rewrite D1, D2, D3. cbn.
  destruct (fs_ok w (S (S (fs_calls w)))); cbn; [| done].
  destruct (fs_ok w (S (fs_calls w))); cbn.
  - by apply numbered_events_snoc.
  - by apply (numbered_events_snoc []).
Qed.

(** X7.  Single events keep the identifiers of the ledger equal to
    1, 2, ..., n in the order of the records, whatever the outcomes of the
    file operations: after any sequence of POST /api/log/event on a ledger
    numbered in this way, no identifier is used twice and none is
    skipped. *)
Theorem single_events_numbered (requests : list (string * EventInput.t))
    (w : World) :
  numbered_events (event_logs (disk w)) →
  numbered_events (event_logs (disk (handle_events requests w))).
Proof.
  revert w. induction requests as [| [ip body] requests IH]; intros w Hn;
    [done |].
  cbn. by apply IH, log_event_numbered.
Qed.

Lemma single_events_numbered_witness :
  numbered_events (event_logs (disk third_call_fails)) ∧
  numbered_events
    (event_logs
       (disk (handle_events
                [("203.0.113.7", keydown "session_a");
                 ("203.0.113.7", undated_event);
                 ("198.51.100.9", keydown "session_b")] third_call_fails))).
Proof.
  split; [reflexivity |].
  apply (single_events_numbered
           [("203.0.113.7", keydown "session_a");
            ("203.0.113.7", undated_event);
            ("198.51.100.9", keydown "session_b")] third_call_fails).
  reflexivity.
Defined.

(* ===================================================================== *)
(** * The login handler: rejected, failed and successful logins *)
(* ===================================================================== *)

Lemma updateIPReputation_draws ip result w :
  draws (exec (updateIPReputation ip result) w).2 = draws w.
Proof.
  unfold updateIPReputation. cbn.
  destruct (fs_ok w (fs_calls w)); cbn.
  - destruct (findIndex _ _) as [i |]; cbn; [destruct (_ !! i); cbn |]; done.
  - done.
Qed.

Lemma updateIPReputation_event_logs ip result w :
  event_logs (disk (exec (updateIPReputation ip result) w).2)
  = event_logs (disk w).
Proof. apply updateIPReputation_frame. Qed.

Lemma rejected_login w ip body :
  rejected body →
  exec (login ip body) w
  = (mkResponse 400 (Message "Username and password required")
                (clock w (clock_reads w)),
     mkWorld (disk w) (fs_ok w) (fs_calls w) (clock w) (S (clock_reads w))
             (entropy w) (draws w)).
Proof.
  unfold rejected, login.
  destruct (LoginBody.username body) as [u |]; [| done].
  destruct (LoginBody.password body) as [p |]; [| done].
  by intros [-> | ->]; rewrite ?andb_false_r.
Qed.

Lemma login_without_200 w ip body :
  status_code (exec (login ip body) w).1 ≠ 200 →
  sessions (disk (exec (login ip body) w).2) = sessions (disk w).
Proof.
  unfold login.
  destruct (LoginBody.username body) as [username |]; [| done].
  destruct (LoginBody.password body) as [password |]; [| done].
  destruct (truthy (Some username) && truthy (Some password)); [| done].
  unfold login_checked. cbn.
  run_login w updateIPReputation_sessions; done.
Qed.

Lemma login_without_200_draws w ip body :
  status_code (exec (login ip body) w).1 ≠ 200 →
  draws (exec (login ip body) w).2 = draws w.
Proof.
  unfold login.
  destruct (LoginBody.username body) as [username |]; [| done].
  destruct (LoginBody.password body) as [password |]; [| done].
  destruct (truthy (Some username) && truthy (Some password)); [| done].
  unfold login_checked. cbn.
  run_login w updateIPReputation_draws; done.
Qed.

Lemma login_event_logs w ip body :
  event_logs (disk (exec (login ip body) w).2) = event_logs (disk w).
Proof.
  unfold login.
  destruct (LoginBody.username body) as [username |]; [| done].
  destruct (LoginBody.password body) as [password |]; [| done].
  destruct (truthy (Some username) && truthy (Some password)); [| done].
  unfold login_checked. cbn.
  run_login w updateIPReputation_event_logs; done.
Qed.

Lemma login_answer w ip body username password :
  healthy w → validated body username password →
  let user := find_user (users (disk w)) username in
  status_code (exec (login ip body) w).1
  = match (verdict user password).1 with SUCCESS => 200 | FAILURE => 401 end ∧
  data (exec (login ip body) w).1
  = match user, (verdict user password).1 with
    | Some user, SUCCESS =>
        LoginData (User.user_id user) (User.username user)
                  (entropy w (draws w))
                  (clock w (S (clock_reads w)) + 24 * 60 * 60 * 1000)
                  (LoginBody.sessionId body)
    | _, _ => InvalidCredentials "Invalid credentials" 2
    end.
Proof.
  intros H (Hu & Hp & Hnu & Hnp) user. subst user.
  unfold login. rewrite Hu, Hp. cbn.
  rewrite !bool_decide_eq_false_2 by done. cbn.
  rewrite !H. cbn.
  destruct (find_user (users (disk w)) username) as [user |]; cbn.
  - case_bool_decide; cbn; rewrite !H; cbn; rewrite exec_bind; by cbn.
  - rewrite !H. cbn. rewrite exec_bind. by cbn.
Qed.

(** X8.  A login whose username or password is missing or empty is
    answered with 400 before any file is read: nothing is stored, no file
    operation is issued and no token is drawn, so that such a request is
    neither recorded as an attempt nor counted against the address. *)
Theorem rejected_login_leaves_no_trace (w : World) (ip : string)
    (body : LoginBody.t) :
  rejected body →
  status_code (exec (login ip body) w).1 = 400 ∧
  data (exec (login ip body) w).1 = Message "Username and password required" ∧
  disk (exec (login ip body) w).2 = disk w ∧
  fs_calls (exec (login ip body) w).2 = fs_calls w ∧
  draws (exec (login ip body) w).2 = draws w.
Proof. intros Hr. by rewrite rejected_login. Qed.

Lemma rejected_login_leaves_no_trace_witness :
  rejected no_password ∧
  status_code (exec (login "203.0.113.7" no_password) first_start).1 = 400 ∧
  data (exec (login "203.0.113.7" no_password) first_start).1
  = Message "Username and password required" ∧
  disk (exec (login "203.0.113.7" no_password) first_start).2
  = disk first_start ∧
  fs_calls (exec (login "203.0.113.7" no_password) first_start).2
  = fs_calls first_start ∧
  draws (exec (login "203.0.113.7" no_password) first_start).2
  = draws first_start.
Proof.
  split; [by right |].
  apply (rejected_login_leaves_no_trace first_start "203.0.113.7" no_password).
  by right.
Defined.

Lemma attemptRecord_verdict ledger t username password user ip body status reason :
  Attempt.attempt_status
    (attemptRecord ledger t username password user ip body status reason)
  = status ∧
  Attempt.failure_reason
    (attemptRecord ledger t username password user ip body status reason)
  = reason ∧
  Attempt.user_id
    (attemptRecord ledger t username password user ip body status reason)
  = or_null (User.user_id <$> user).
Proof. done. Qed.

(** X9.  On a storage whose reads and writes succeed, a validated login
    that fails, because the user is unknown or because the password is
    wrong, is answered in both cases with 401 and the same body ('Invalid
    credentials', 2 remaining attempts), while the attempt appended to the
    ledger tells the two cases apart: [failure_reason] is user_not_found
    with a null [user_id], or invalid_password with the user found. *)
Theorem failed_login_answer_is_generic (w : World) (ip : string)
    (body : LoginBody.t) (username password : string) :
  healthy w →
  validated body username password →
  let user := find_user (users (disk w)) username in
  (verdict user password).1 = FAILURE →
  status_code (exec (login ip body) w).1 = 401 ∧
  data (exec (login ip body) w).1 = InvalidCredentials "Invalid credentials" 2 ∧
  ∃ a, login_attempts (disk (exec (login ip body) w).2)
       = login_attempts (disk w) ++ [a] ∧
       Attempt.attempt_status a = FAILURE ∧
       Attempt.failure_reason a
       = Some (match user with
               | None => user_not_found
               | Some _ => invalid_password
               end) ∧
       Attempt.user_id a = or_null (User.user_id <$> user).
Proof.
  intros H Hv user Hf.
  destruct (login_answer w ip body username password H Hv) as [Hs Hd].
  fold user in Hs, Hd. rewrite Hf in Hs.
  split; [done |].
  split; [destruct user; [rewrite Hf in Hd |]; done |].
  eexists. split; [by apply login_attempts_after |].
  fold user. rewrite !(proj1 (attemptRecord_verdict _ _ _ _ _ _ _ _ _)).
  rewrite !(proj1 (proj2 (attemptRecord_verdict _ _ _ _ _ _ _ _ _))).
  rewrite !(proj2 (proj2 (attemptRecord_verdict _ _ _ _ _ _ _ _ _))).
  split; [done |]. split; [| done].
  destruct user as [u |]; [| done].
  unfold verdict in *. by case_bool_decide.
Qed.

Lemma failed_login_answer_is_generic_witness :
  healthy first_start ∧
  validated (LoginBody.mk (Some "mallory") (Some "guess") None None None)
            "mallory" "guess" ∧
  (verdict (find_user (users (disk first_start)) "mallory") "guess").1
  = FAILURE ∧
  status_code
    (exec (login "203.0.113.7"
             (LoginBody.mk (Some "mallory") (Some "guess") None None None))
          first_start).1 = 401 ∧
  data
    (exec (login "203.0.113.7"
             (LoginBody.mk (Some "mallory") (Some "guess") None None None))
          first_start).1 = InvalidCredentials "Invalid credentials" 2 ∧
  ∃ a, login_attempts
         (disk (exec (login "203.0.113.7"
                        (LoginBody.mk (Some "mallory") (Some "guess") None None
                                      None)) first_start).2)
       = login_attempts (disk first_start) ++ [a] ∧
       Attempt.attempt_status a = FAILURE ∧
       Attempt.failure_reason a
       = Some (match find_user (users (disk first_start)) "mallory" with
               | None => user_not_found
               | Some _ => invalid_password
               end) ∧
       Attempt.user_id a
       = or_null (User.user_id <$>
                    find_user (users (disk first_start)) "mallory").
Proof.
  split; [apply first_start_healthy |].
  split; [by repeat split |].
  split; [reflexivity |].
  apply (failed_login_answer_is_generic first_start "203.0.113.7"
           (LoginBody.mk (Some "mallory") (Some "guess") None None None)
           "mallory" "guess").
  - apply first_start_healthy.
  - by repeat split.
  - reflexivity.
Defined.

(** X10.  Whatever the request and the outcomes of the file operations, a
    login that is not answered with 200 stores no session and draws no
    token. *)
Theorem no_session_without_success (w : World) (ip : string)
    (body : LoginBody.t) :
  status_code (exec (login ip body) w).1 ≠ 200 →
  sessions (disk (exec (login ip body) w).2) = sessions (disk w) ∧
  draws (exec (login ip body) w).2 = draws w.
Proof.
  intros Hs. split; [by apply login_without_200 | by apply login_without_200_draws].
Qed.

Lemma no_session_without_success_witness :
  status_code
    (exec (login "203.0.113.7"
             (LoginBody.mk (Some "admin") (Some "guess") None None None))
          login_writes_fail).1 ≠ 200 ∧
  sessions
    (disk (exec (login "203.0.113.7"
                   (LoginBody.mk (Some "admin") (Some "guess") None None None))
                login_writes_fail).2)
  = sessions (disk login_writes_fail) ∧
  draws
    (exec (login "203.0.113.7"
             (LoginBody.mk (Some "admin") (Some "guess") None None None))
          login_writes_fail).2
  = draws login_writes_fail.
Proof.
  split; [by vm_compute |].
  apply (no_session_without_success login_writes_fail "203.0.113.7"
           (LoginBody.mk (Some "admin") (Some "guess") None None None)).
  by vm_compute.
Defined.

(** X11.  On a storage whose reads and writes succeed, the answer to a
    successful login describes the session that was stored: the token, the
    expiry, the user and the session identifier of the answer are those of
    the record appended to sessions.json, which is active and carries the
    address of the request. *)
Theorem login_answer_matches_session (w : World) (ip : string)
    (body : LoginBody.t) (username password : string) (user : User.t) :
  healthy w →
  validated body username password →
  find_user (users (disk w)) username = Some user →
  User.password user = password →
  ∃ s, sessions (disk (exec (login ip body) w).2) = sessions (disk w) ++ [s] ∧
       status_code (exec (login ip body) w).1 = 200 ∧
       data (exec (login ip body) w).1
       = LoginData (Session.user_id s) (User.username user)
                   (Session.session_token s) (Session.expires_at s)
                   (Session.session_id s) ∧
       Session.user_id s = User.user_id user ∧
       Session.ip_address s = ip ∧
       Session.is_active s = true.
Proof.
  intros H Hv Hfind Hpw.
  destruct (login_answer w ip body username password H Hv) as [Hs Hd].
  rewrite Hfind in Hs, Hd. unfold verdict in Hs, Hd.
  rewrite bool_decide_eq_true_2 in Hs, Hd by done. cbn in Hs, Hd.
  eexists. split; [by eapply sessions_after_success |].
  by rewrite Hs, Hd.
Qed.

Lemma login_answer_matches_session_witness :
  healthy first_start ∧
  validated (admin_login "session_a" None) "admin" "admin123" ∧
  find_user (users (disk first_start)) "admin"
  = Some (User.mk 1 "admin" "admin123") ∧
  User.password (User.mk 1 "admin" "admin123") = "admin123" ∧
  ∃ s, sessions
         (disk (exec (login "203.0.113.7" (admin_login "session_a" None))
                     first_start).2)
       = sessions (disk first_start) ++ [s] ∧
       status_code
         (exec (login "203.0.113.7" (admin_login "session_a" None))
               first_start).1 = 200 ∧
       data
         (exec (login "203.0.113.7" (admin_login "session_a" None))
               first_start).1
       = LoginData (Session.user_id s)
                   (User.username (User.mk 1 "admin" "admin123"))
                   (Session.session_token s) (Session.expires_at s)
                   (Session.session_id s) ∧
       Session.user_id s = User.user_id (User.mk 1 "admin" "admin123") ∧
       Session.ip_address s = "203.0.113.7" ∧
       Session.is_active s = true.
Proof.
  split; [apply first_start_healthy |].
  split; [apply validated_admin |].
  split; [reflexivity |].
  split; [reflexivity |].
  apply (login_answer_matches_session first_start "203.0.113.7"
           (admin_login "session_a" None) "admin" "admin123"
           (User.mk 1 "admin" "admin123")).
  - apply first_start_healthy.
  - apply validated_admin.
  - reflexivity.
  - reflexivity.
Defined.

(** A validated login runs the update of the reputation once, with its
    outcome, on a ledger of reputations that it has not changed. *)
Lemma login_observes w ip body username password :
  healthy w → validated body username password →
  ∃ w_mid,
    healthy w_mid ∧
    ip_reputation (disk w_mid) = ip_reputation (disk w) ∧
    disk (exec (login ip body) w).2
    = disk (observe ip
              (outcome (verdict (find_user (users (disk w)) username) password).1)
              w_mid).
Proof.
  intros H (Hu & Hp & Hnu & Hnp).
  unfold login. rewrite Hu, Hp. cbn.
  rewrite !bool_decide_eq_false_2 by done. cbn.
  rewrite !H. cbn.
  destruct (find_user (users (disk w)) username) as [user |]; cbn.
  - case_bool_decide; cbn; rewrite !H; cbn; rewrite exec_bind; cbn.
    + eexists. split; [| split; [| reflexivity]]; [by intros n; apply H | done].
    + eexists. split; [| split; [| reflexivity]]; [by intros n; apply H | done].
  - rewrite !H. cbn. rewrite exec_bind. cbn.
    eexists. split; [| split; [| reflexivity]]; [by intros n; apply H | done].
Qed.

(** X12.  On a storage whose reads and writes succeed, every validated
    login counts as exactly one observation for the address of the request,
    a success when the credentials are right and a failure otherwise: the
    record of an address seen for the first time is the fresh record of
    that outcome, and the record of a known address is updated once. *)
Theorem login_counts_one_observation (w : World) (ip : string)
    (body : LoginBody.t) (username password : string) :
  healthy w →
  validated body username password →
  let result :=
    outcome (verdict (find_user (users (disk w)) username) password).1 in
  match lookup_ip ip w with
  | None =>
      ∃ seen1 seen2,
        lookup_ip ip (exec (login ip body) w).2
        = Some (fresh ip result seen1 seen2)
  | Some r =>
      ∃ now,
        lookup_ip ip (exec (login ip body) w).2 = Some (bump result now r)
  end.
Proof.
  intros H Hv result.
  destruct (login_observes w ip body username password H Hv)
    as (w_mid & Hm & Hr & Hd).
  fold result in Hd. unfold lookup_ip at 2 3. rewrite Hd.
  fold (lookup_ip ip (observe ip result w_mid)).
  assert (Hl : lookup_ip ip w_mid = lookup_ip ip w)
    by (unfold lookup_ip; by rewrite Hr).
  destruct (lookup_ip ip w) as [r |] eqn:E.
  - eexists. by apply observe_known.
  - eexists. eexists. by apply observe_new.
Qed.

Lemma login_counts_one_observation_witness :
  healthy first_start ∧
  validated (admin_login "session_a" None) "admin" "admin123" ∧
  match lookup_ip "203.0.113.7" first_start with
  | None =>
      ∃ seen1 seen2,
        lookup_ip "203.0.113.7"
          (exec (login "203.0.113.7" (admin_login "session_a" None))
                first_start).2
        = Some (fresh "203.0.113.7"
                  (outcome
                     (verdict (find_user (users (disk first_start)) "admin")
                              "admin123").1) seen1 seen2)
  | Some r =>
      ∃ now,
        lookup_ip "203.0.113.7"
          (exec (login "203.0.113.7" (admin_login "session_a" None))
                first_start).2
        = Some (bump
                  (outcome
                     (verdict (find_user (users (disk first_start)) "admin")
                              "admin123").1) now r)
  end.
Proof.
  split; [apply first_start_healthy |].
  split; [apply validated_admin |].
  apply (login_counts_one_observation first_start "203.0.113.7"
           (admin_login "session_a" None) "admin" "admin123").
  - apply first_start_healthy.
  - apply validated_admin.
Defined.

Lemma find_session_snoc sessions s sessionId :
  find_session sessions sessionId = None →
  Session.session_id s = sessionId →
  find_session (sessions ++ [s]) sessionId = Some s.
Proof.
  intros Hn Hs. apply find_snoc_None; [done |].
  by apply bool_decide_eq_true.
Qed.

(** X13.  Login and logging compose: on a storage whose reads and writes
    succeed, after a successful login of a user whose identifier is not 0,
    sent with a session identifier that is a string and that no stored
    session has, an event sent with the same string as its session
    identifier is recorded with the identifier of that user. *)
Theorem event_after_login_is_attributed (w : World) (ip ip' : string)
    (body : LoginBody.t) (username password : string) (user : User.t)
    (event : EventInput.t) (sessionId : string) :
  healthy w →
  validated body username password →
  find_user (users (disk w)) username = Some user →
  User.password user = password →
  User.user_id user ≠ 0 →
  LoginBody.sessionId body = Some sessionId →
  EventInput.sessionId event = Some sessionId →
  find_session (sessions (disk w)) (Some sessionId) = None →
  let w1 := (exec (login ip body) w).2 in
  ∃ entry,
    event_logs (disk (exec (log_event ip' event) w1).2)
    = event_logs (disk w) ++ [entry] ∧
    EventLog.user_id entry = Some (User.user_id user).
Proof.
  intros H Hv Hfind Hpw Hid Hb He Hnone w1.
  assert (H1 : healthy w1) by by apply login_healthy.
  destruct (log_event_run w1 ip' event H1) as (Hd & _ & _).
  eexists. rewrite Hd. cbn. subst w1. rewrite login_event_logs.
  split; [reflexivity |].
  change (userId_of
            (sessions (disk (exec (login ip body) w).2))
            (EventInput.sessionId event) = Some (User.user_id user)).
  rewrite (sessions_after_success w ip body username password user) by done.
  unfold userId_of. rewrite He.
  rewrite (find_session_snoc _ _ _ Hnone) by done.
  cbn. by rewrite bool_decide_eq_false_2.
Qed.

Lemma event_after_login_is_attributed_witness :
  healthy first_start ∧
  validated (user1_login "session_b") "user1" "password123" ∧
  find_user (users (disk first_start)) "user1"
  = Some (User.mk 2 "user1" "password123") ∧
  User.password (User.mk 2 "user1" "password123") = "password123" ∧
  User.user_id (User.mk 2 "user1" "password123") ≠ 0 ∧
  LoginBody.sessionId (user1_login "session_b") = Some "session_b" ∧
  EventInput.sessionId (keydown "session_b") = Some "session_b" ∧
  find_session (sessions (disk first_start)) (Some "session_b") = None ∧
  ∃ entry,
    event_logs
      (disk (exec (log_event "198.51.100.9" (keydown "session_b"))
               (exec (login "198.51.100.9" (user1_login "session_b"))
                     first_start).2).2)
    = event_logs (disk first_start) ++ [entry] ∧
    EventLog.user_id entry = Some (User.user_id (User.mk 2 "user1" "password123")).
Proof.
  split; [apply first_start_healthy |].
  split; [apply validated_user1 |].
  split; [reflexivity |].
  split; [reflexivity |].
  split; [discriminate |].
  split; [reflexivity |].
  split; [reflexivity |].
  split; [reflexivity |].
  apply (event_after_login_is_attributed first_start
           "198.51.100.9" "198.51.100.9" (user1_login "session_b")
           "user1" "password123" (User.mk 2 "user1" "password123")
           (keydown "session_b") "session_b").
  - apply first_start_healthy.
  - apply validated_user1.
  - reflexivity.
  - reflexivity.
  - discriminate.
  - reflexivity.
  - reflexivity.
  - reflexivity.
Defined.

(** X29.  The identifier 0 is read as no user: on a storage whose reads and
    writes succeed, a user whose [user_id] is 0 logs in successfully and
    gets a session, but the attempt is recorded with a null [user_id], and
    an event sent with the session identifier of that login is recorded
    with a null [user_id] as well. *)
Theorem user_zero_is_not_attributed (w : World) (ip ip' : string)
    (body : LoginBody.t) (username password : string) (user : User.t)
    (event : EventInput.t) :
  healthy w →
  validated body username password →
  find_user (users (disk w)) username = Some user →
  User.password user = password →
  User.user_id user = 0 →
  find_session (sessions (disk w)) (LoginBody.sessionId body) = None →
  EventInput.sessionId event = LoginBody.sessionId body →
  let w1 := (exec (login ip body) w).2 in
  status_code (exec (login ip body) w).1 = 200 ∧
  ∃ a entry,
    login_attempts (disk w1) = login_attempts (disk w) ++ [a] ∧
    Attempt.attempt_status a = SUCCESS ∧
    Attempt.user_id a = None ∧
    event_logs (disk (exec (log_event ip' event) w1).2)
    = event_logs (disk w) ++ [entry] ∧
    EventLog.user_id entry = None.
Proof.
  intros H Hv Hfind Hpw Hid Hnone He w1.
  assert (H1 : healthy w1) by by apply login_healthy.
  destruct (login_answer w ip body username password H Hv) as [Hs _].
  rewrite Hfind in Hs. unfold verdict in Hs.
  rewrite bool_decide_eq_true_2 in Hs by done.
  split; [done |].
  destruct (log_event_run w1 ip' event H1) as (Hd & _ & _).
  eexists. eexists. rewrite Hd. cbn. subst w1. rewrite login_event_logs.
  split; [by apply login_attempts_after |].
  rewrite Hfind. unfold verdict. rewrite bool_decide_eq_true_2 by done.
  split; [done |]. split; [| split; [reflexivity |]].
  - rewrite (proj2 (proj2 (attemptRecord_verdict _ _ _ _ _ _ _ _ _))).
    unfold or_null. cbn [fmap option_fmap option_map].
    by rewrite bool_decide_eq_true_2.
  - change (userId_of
              (sessions (disk (exec (login ip body) w).2))
              (EventInput.sessionId event) = None).
    rewrite (sessions_after_success w ip body username password user) by done.
    unfold userId_of. rewrite He.
    rewrite (find_session_snoc _ _ _ Hnone) by done.
    unfold or_null. cbn [fmap option_fmap option_map new_session Session.user_id].
    by rewrite bool_decide_eq_true_2.
Qed.

Lemma user_zero_is_not_attributed_witness :
  healthy guest_start ∧
  validated guest_login "guest" "guest123" ∧
  find_user (users (disk guest_start)) "guest"
  = Some (User.mk 0 "guest" "guest123") ∧
  User.password (User.mk 0 "guest" "guest123") = "guest123" ∧
  User.user_id (User.mk 0 "guest" "guest123") = 0 ∧
  find_session (sessions (disk guest_start)) (LoginBody.sessionId guest_login)
  = None ∧
  EventInput.sessionId (keydown "session_g") = LoginBody.sessionId guest_login ∧
  status_code (exec (login "203.0.113.7" guest_login) guest_start).1 = 200 ∧
  ∃ a entry,
    login_attempts (disk (exec (login "203.0.113.7" guest_login) guest_start).2)
    = login_attempts (disk guest_start) ++ [a] ∧
    Attempt.attempt_status a = SUCCESS ∧
    Attempt.user_id a = None ∧
    event_logs
      (disk (exec (log_event "203.0.113.7" (keydown "session_g"))
               (exec (login "203.0.113.7" guest_login) guest_start).2).2)
    = event_logs (disk guest_start) ++ [entry] ∧
    EventLog.user_id entry = None.
Proof.
  split; [by intros n |].
  split; [by repeat split |].
  split; [reflexivity |].
  split; [reflexivity |].
  split; [reflexivity |].
  split; [reflexivity |].
  split; [reflexivity |].
  apply (user_zero_is_not_attributed guest_start "203.0.113.7" "203.0.113.7"
           guest_login "guest" "guest123" (User.mk 0 "guest" "guest123")
           (keydown "session_g")).
  - by intros n.
  - by repeat split.
  - reflexivity.
  - reflexivity.
  - reflexivity.
  - reflexivity.
  - reflexivity.
Defined.

(* ===================================================================== *)
(** * Reputation Engine: counting, isolation and the lookup endpoint *)
(* ===================================================================== *)

Lemma find_insert_other {A} (p : A → bool) (l : list A) (i : nat) (x y : A) :
  l !! i = Some x → p x = false → p y = false →
  List.find p (<[i := y]> l) = List.find p l.
Proof.
  revert i. induction l as [| z l IH]; intros i; [done |].
  destruct i as [| i]; cbn.
  - intros [= ->] Hx Hy. by rewrite Hx, Hy.
  - intros Hl Hx Hy. destruct (p z); [done |]. by eapply IH.
Qed.

Lemma find_snoc_false {A} (p : A → bool) (l : list A) (z : A) :
  p z = false → List.find p (l ++ [z]) = List.find p l.
Proof.
  intros Hz. induction l as [| x l IH]; cbn; [by rewrite Hz |].
  by destruct (p x).
Qed.

Lemma findIndex_Some_lookup {A} (p : A → bool) (l : list A) (i : nat) :
  findIndex p l = Some i → ∃ x, l !! i = Some x ∧ p x = true ∧ List.find p l = Some x.
Proof.
  revert i. induction l as [| y l IH]; intros i; cbn; [done |].
  destruct (p y) eqn:Hy.
  - intros [= <-]. by exists y.
  - destruct (findIndex p l) as [j |]; [| done].
    intros [= <-]. destruct (IH j eq_refl) as (x & ? & ? & ?). by exists x.
Qed.

Lemma findIndex_None_find {A} (p : A → bool) (l : list A) :
  findIndex p l = None → List.find p l = None.
Proof.
  induction l as [| y l IH]; cbn; [done |].
  destruct (p y); [done |]. destruct (findIndex p l); [done |]. auto.
Qed.

(** The ledger of reputations after one observation. *)
Lemma observe_ledger ip result w :
  healthy w →
  ip_reputation (disk (observe ip result w))
  = match findIndex (same_ip ip) (ip_reputation (disk w)) with
    | Some i =>
        match ip_reputation (disk w) !! i with
        | Some r =>
            <[i := bump result (clock w (clock_reads w)) r]>
              (ip_reputation (disk w))
        | None => ip_reputation (disk w)
        end
    | None =>
        ip_reputation (disk w) ++
        [fresh ip result (clock w (clock_reads w))
               (clock w (S (clock_reads w)))]
    end.
Proof.
  intros H. unfold observe, updateIPReputation. cbn. rewrite H. cbn.
  destruct (findIndex _ _) as [i |]; cbn.
  - destruct (_ !! i); cbn; by rewrite H.
  - by rewrite H.
Qed.

Lemma same_ip_other ip ip' r :
  ip' ≠ ip → same_ip ip r = true → same_ip ip' r = false.
Proof.
  unfold same_ip. intros Hne Hr%bool_decide_eq_true.
  apply bool_decide_eq_false. congruence.
Qed.

Lemma observe_other ip ip' result w :
  healthy w → ip' ≠ ip →
  lookup_ip ip' (observe ip result w) = lookup_ip ip' w.
Proof.
  intros H Hne. unfold lookup_ip. rewrite observe_ledger by done.
  destruct (findIndex _ _) as [i |] eqn:Hi.
  - destruct (findIndex_Some_lookup _ _ _ Hi) as (x & Hx & Hp & _).
    rewrite Hx. apply (find_insert_other _ _ _ x); [done | |].
    + by eapply same_ip_other.
    + eapply same_ip_other; [done |]. by apply same_ip_bump.
  - apply find_snoc_false. eapply same_ip_other; [done |]. apply same_ip_fresh.
Qed.

Lemma observe_length ip result w :
  healthy w →
  length (ip_reputation (disk (observe ip result w)))
  = (length (ip_reputation (disk w))
     + match lookup_ip ip w with Some _ => 0 | None => 1 end)%nat.
Proof.
  intros H. unfold lookup_ip. rewrite observe_ledger by done.
  destruct (findIndex _ _) as [i |] eqn:Hi.
  - destruct (findIndex_Some_lookup _ _ _ Hi) as (x & Hx & _ & Hf).
    rewrite Hx, Hf, length_insert. lia.
  - rewrite (findIndex_None_find _ _ Hi), length_app. cbn. lia.
Qed.

(** X14.  On a storage whose reads and writes succeed, an observation for
    one address leaves the record of every other address as it was, and
    adds one record to the collection when the address had none, and none
    otherwise. *)
Theorem observation_touches_one_address (w : World) (ip ip' : string)
    (result : LoginResult) :
  healthy w →
  ip' ≠ ip →
  lookup_ip ip' (observe ip result w) = lookup_ip ip' w ∧
  length (ip_reputation (disk (observe ip result w)))
  = (length (ip_reputation (disk w))
     + match lookup_ip ip w with Some _ => 0 | None => 1 end)%nat.
Proof.
  intros H Hne. split; [by apply observe_other | by apply observe_length].
Qed.

Lemma observation_touches_one_address_witness :
  healthy after_two_logins_of_one_page ∧
  "203.0.113.7" ≠ "198.51.100.9" ∧
  lookup_ip "203.0.113.7"
    (observe "198.51.100.9" failure after_two_logins_of_one_page)
  = lookup_ip "203.0.113.7" after_two_logins_of_one_page ∧
  length (ip_reputation
            (disk (observe "198.51.100.9" failure after_two_logins_of_one_page)))
  = (length (ip_reputation (disk after_two_logins_of_one_page))
     + match lookup_ip "198.51.100.9" after_two_logins_of_one_page with
       | Some _ => 0
       | None => 1
       end)%nat.
Proof.
  split; [by intros n |].
  split; [discriminate |].
  apply (observation_touches_one_address after_two_logins_of_one_page
           "198.51.100.9" "203.0.113.7" failure).
  - by intros n.
  - discriminate.
Defined.

Lemma failures_cons result results :
  failures (result :: results)
  = match result with failure => 1 | success => 0 end + failures results.
Proof.
  unfold failures. rewrite filter_cons.
  destruct result; [rewrite decide_False by done | rewrite decide_True by done];
    cbn [length]; lia.
Qed.

Lemma successes_cons result results :
  successes (result :: results)
  = match result with success => 1 | failure => 0 end + successes results.
Proof.
  unfold successes. rewrite filter_cons.
  destruct result; [rewrite decide_True by done | rewrite decide_False by done];
    cbn [length]; lia.
Qed.

Lemma bump_counters result now r :
  IPRep.ip_address (bump result now r) = IPRep.ip_address r ∧
  IPRep.first_seen (bump result now r) = IPRep.first_seen r ∧
  IPRep.is_blocked (bump result now r) = IPRep.is_blocked r ∧
  IPRep.total_logins (bump result now r) = IPRep.total_logins r + 1 ∧
  IPRep.failed_logins (bump result now r)
  = IPRep.failed_logins r + match result with failure => 1 | success => 0 end ∧
  IPRep.successful_logins (bump result now r)
  = IPRep.successful_logins r
    + match result with success => 1 | failure => 0 end ∧
  IPRep.suspicious_activities (bump result now r)
  = IPRep.suspicious_activities r
    + match result with failure => 1 | success => 0 end.
Proof. destruct result; cbn; repeat split; lia. Qed.

Lemma fresh_counters ip result t1 t2 :
  IPRep.ip_address (fresh ip result t1 t2) = ip ∧
  IPRep.first_seen (fresh ip result t1 t2) = t1 ∧
  IPRep.is_blocked (fresh ip result t1 t2) = false ∧
  IPRep.total_logins (fresh ip result t1 t2) = 1 ∧
  IPRep.failed_logins (fresh ip result t1 t2)
  = match result with failure => 1 | success => 0 end ∧
  IPRep.successful_logins (fresh ip result t1 t2)
  = match result with success => 1 | failure => 0 end ∧
  IPRep.suspicious_activities (fresh ip result t1 t2)
  = match result with failure => 1 | success => 0 end.
Proof. by destruct result. Qed.

(** What a sequence of observations does to an existing record. *)
Lemma observe_all_known ip results w r :
  healthy w → lookup_ip ip w = Some r →
  ∃ r', lookup_ip ip (observe_all ip results w) = Some r' ∧
        IPRep.ip_address r' = IPRep.ip_address r ∧
        IPRep.first_seen r' = IPRep.first_seen r ∧
        IPRep.is_blocked r' = IPRep.is_blocked r ∧
        IPRep.total_logins r' = IPRep.total_logins r + Z.of_nat (length results) ∧
        IPRep.failed_logins r' = IPRep.failed_logins r + failures results ∧
        IPRep.successful_logins r'
        = IPRep.successful_logins r + successes results ∧
        IPRep.suspicious_activities r'
        = IPRep.suspicious_activities r + failures results.
Proof.
  revert w r. induction results as [| o results IH]; intros w r H Hr.
  - exists r. unfold failures, successes. cbn. repeat split; try done; lia.
  - cbn [observe_all].
    destruct (IH (observe ip o w) (bump o (clock w (clock_reads w)) r))
      as (r' & E & E1 & E2 & E3 & E4 & E5 & E6 & E7).
    + by apply observe_healthy.
    + by apply observe_known.
    + exists r'. split; [done |].
      destruct (bump_counters o (clock w (clock_reads w)) r)
        as (B1 & B2 & B3 & B4 & B5 & B6 & B7).
      rewrite E1, E2, E3, E4, E5, E6, E7, B1, B2, B3, B4, B5, B6, B7.
      rewrite failures_cons, successes_cons. cbn [length].
      repeat split; lia.
Qed.

(** X15.  On a storage whose reads and writes succeed, the record of an
    address counts its observations exactly: after a non-empty sequence of
    observations from no record, [total_logins] is the number of
    observations, [failed_logins] and [suspicious_activities] the number of
    failures, [successful_logins] the number of successes; [first_seen] is
    the first reading of the clock of the first observation and
    [is_blocked] is still false, whatever the number of failures. *)
Theorem reputation_counts_observations (w : World) (ip : string)
    (result : LoginResult) (results : list LoginResult) :
  healthy w →
  lookup_ip ip w = None →
  ∃ r, lookup_ip ip (observe_all ip (result :: results) w) = Some r ∧
       IPRep.ip_address r = ip ∧
       IPRep.total_logins r = Z.of_nat (length (result :: results)) ∧
       IPRep.failed_logins r = failures (result :: results) ∧
       IPRep.successful_logins r = successes (result :: results) ∧
       IPRep.suspicious_activities r = failures (result :: results) ∧
       IPRep.first_seen r = clock w (clock_reads w) ∧
       IPRep.is_blocked r = false.
Proof.
  intros H Hn. cbn [observe_all].
  destruct (observe_all_known ip results (observe ip result w)
              (fresh ip result (clock w (clock_reads w))
                     (clock w (S (clock_reads w)))))
    as (r & E & E1 & E2 & E3 & E4 & E5 & E6 & E7).
  - by apply observe_healthy.
  - by apply observe_new.
  - exists r. split; [done |].
    destruct (fresh_counters ip result (clock w (clock_reads w))
                (clock w (S (clock_reads w))))
      as (B1 & B2 & B3 & B4 & B5 & B6 & B7).
    rewrite E1, E2, E3, E4, E5, E6, E7, B1, B2, B3, B4, B5, B6, B7.
    rewrite failures_cons, successes_cons. cbn [length].
    repeat split; lia.
Qed.

Lemma reputation_counts_observations_witness :
  healthy first_start ∧
  lookup_ip "203.0.113.7" first_start = None ∧
  ∃ r, lookup_ip "203.0.113.7"
         (observe_all "203.0.113.7" (failure :: [success; failure; failure])
                      first_start) = Some r ∧
       IPRep.ip_address r = "203.0.113.7" ∧
       IPRep.total_logins r
       = Z.of_nat (length (failure :: [success; failure; failure])) ∧
       IPRep.failed_logins r = failures (failure :: [success; failure; failure]) ∧
       IPRep.successful_logins r
       = successes (failure :: [success; failure; failure]) ∧
       IPRep.suspicious_activities r
       = failures (failure :: [success; failure; failure]) ∧
       IPRep.first_seen r = clock first_start (clock_reads first_start) ∧
       IPRep.is_blocked r = false.
Proof.
  split; [apply first_start_healthy |].
  split; [reflexivity |].
  apply (reputation_counts_observations first_start "203.0.113.7" failure
           [success; failure; failure]).
  - apply first_start_healthy.
  - reflexivity.
Defined.

Lemma observe_all_failures ip n w r :
  healthy w → lookup_ip ip w = Some r → 0 ≤ IPRep.reputation_score r →
  ∃ r', lookup_ip ip (observe_all ip (replicate n failure) w) = Some r' ∧
        IPRep.reputation_score r'
        = Z.max 0 (IPRep.reputation_score r - 5 * Z.of_nat n).
Proof.
  revert w r. induction n as [| n IH]; intros w r H Hr Hs.
  - exists r. split; [done |]. lia.
  - cbn [replicate observe_all].
    destruct (IH (observe ip failure w) (bump failure (clock w (clock_reads w)) r))
      as (r' & E & E1).
    + by apply observe_healthy.
    + by apply observe_known.
    + cbn. lia.
    + exists r'. split; [done |]. rewrite E1. cbn. lia.
Qed.

Lemma observe_all_successes ip n w r :
  healthy w → lookup_ip ip w = Some r → IPRep.reputation_score r ≤ 100 →
  ∃ r', lookup_ip ip (observe_all ip (replicate n success) w) = Some r' ∧
        IPRep.reputation_score r'
        = Z.min 100 (IPRep.reputation_score r + Z.of_nat n).
Proof.
  revert w r. induction n as [| n IH]; intros w r H Hr Hs.
  - exists r. split; [done |]. lia.
  - cbn [replicate observe_all].
    destruct (IH (observe ip success w) (bump success (clock w (clock_reads w)) r))
      as (r' & E & E1).
    + by apply observe_healthy.
    + by apply observe_known.
    + cbn. lia.
    + exists r'. split; [done |]. rewrite E1. cbn. lia.
Qed.

(** X16.  On a storage whose reads and writes succeed, the score of an
    address seen for the first time is, after n+1 failures in a row, the
    larger of 0 and 90 - 5n, so that it reaches 0 at the 19th failure and
    stays there; after n+1 successes in a row it is the smaller of 100 and
    95 + n, so that it reaches 100 at the 6th success and stays there. *)
Theorem score_after_a_streak (w : World) (ip : string) (n : nat) :
  healthy w →
  lookup_ip ip w = None →
  IPRep.reputation_score <$>
    lookup_ip ip (observe_all ip (replicate (S n) failure) w)
  = Some (Z.max 0 (90 - 5 * Z.of_nat n)) ∧
  IPRep.reputation_score <$>
    lookup_ip ip (observe_all ip (replicate (S n) success) w)
  = Some (Z.min 100 (95 + Z.of_nat n)).
Proof.
  intros H Hn. cbn [replicate observe_all]. split.
  - destruct (observe_all_failures ip n (observe ip failure w)
                (fresh ip failure (clock w (clock_reads w))
                       (clock w (S (clock_reads w)))))
      as (r & -> & E); [by apply observe_healthy | by apply observe_new | done |].
    cbn. by rewrite E.
  - destruct (observe_all_successes ip n (observe ip success w)
                (fresh ip success (clock w (clock_reads w))
                       (clock w (S (clock_reads w)))))
      as (r & -> & E); [by apply observe_healthy | by apply observe_new | done |].
    cbn. by rewrite E.
Qed.

Lemma score_after_a_streak_witness :
  healthy first_start ∧
  lookup_ip "203.0.113.7" first_start = None ∧
  IPRep.reputation_score <$>
    lookup_ip "203.0.113.7"
      (observe_all "203.0.113.7" (replicate (S 18) failure) first_start)
  = Some (Z.max 0 (90 - 5 * Z.of_nat 18)) ∧
  IPRep.reputation_score <$>
    lookup_ip "203.0.113.7"
      (observe_all "203.0.113.7" (replicate (S 18) success) first_start)
  = Some (Z.min 100 (95 + Z.of_nat 18)).
Proof.
  split; [apply first_start_healthy |].
  split; [reflexivity |].
  apply (score_after_a_streak first_start "203.0.113.7" 18).
  - apply first_start_healthy.
  - reflexivity.
Defined.

Lemma ip_reputation_of_answer ip w :
  healthy w →
  status_code (exec (ip_reputation_of ip) w).1
  = match lookup_ip ip w with Some _ => 200 | None => 404 end ∧
  data (exec (ip_reputation_of ip) w).1
  = match lookup_ip ip w with
    | Some r => IPData r
    | None => Message "IP not found"
    end.
Proof.
  intros H. unfold ip_reputation_of, lookup_ip. cbn. rewrite H. cbn.
  by destruct (List.find _ _).
Qed.

(** X17.  GET /api/analytics/ip-reputation and the Reputation Engine agree:
    on a storage whose reads and writes succeed, an address without a
    record is answered with 404 'IP not found', and as soon as one
    observation has been made for the address the answer is 200 with the
    record of that address. *)
Theorem ip_reputation_found_after_observation (w : World) (ip : string)
    (result : LoginResult) :
  healthy w →
  (lookup_ip ip w = None →
   status_code (exec (ip_reputation_of ip) w).1 = 404 ∧
   data (exec (ip_reputation_of ip) w).1 = Message "IP not found") ∧
  ∃ r, status_code (exec (ip_reputation_of ip) (observe ip result w)).1 = 200 ∧
       data (exec (ip_reputation_of ip) (observe ip result w)).1 = IPData r ∧
       IPRep.ip_address r = ip ∧
       lookup_ip ip (observe ip result w) = Some r.
Proof.
  intros H. split.
  - intros Hn. destruct (ip_reputation_of_answer ip w H) as [Hs Hd].
    by rewrite Hs, Hd, Hn.
  - destruct (ip_reputation_of_answer ip (observe ip result w)) as [Hs Hd];
      [by apply observe_healthy |].
    rewrite Hs, Hd.
    destruct (lookup_ip ip w) as [r |] eqn:E.
    + rewrite (observe_known ip result w r) by done.
      eexists. repeat split.
      apply find_Some_true in E. destruct result; cbn;
        by apply bool_decide_eq_true in E.
    + rewrite (observe_new ip result w) by done.
      eexists. by repeat split.
Qed.

Lemma ip_reputation_found_after_observation_witness :
  healthy first_start ∧
  (lookup_ip "203.0.113.7" first_start = None →
   status_code (exec (ip_reputation_of "203.0.113.7") first_start).1 = 404 ∧
   data (exec (ip_reputation_of "203.0.113.7") first_start).1
   = Message "IP not found") ∧
  ∃ r, status_code
         (exec (ip_reputation_of "203.0.113.7")
               (observe "203.0.113.7" failure first_start)).1 = 200 ∧
       data
         (exec (ip_reputation_of "203.0.113.7")
               (observe "203.0.113.7" failure first_start)).1 = IPData r ∧
       IPRep.ip_address r = "203.0.113.7" ∧
       lookup_ip "203.0.113.7" (observe "203.0.113.7" failure first_start)
       = Some r.
Proof.
  split; [apply first_start_healthy |].
  apply (ip_reputation_found_after_observation first_start "203.0.113.7"
           failure).
  apply first_start_healthy.
Defined.

(* ===================================================================== *)
(** * Attempt Ledger: more on the statistics *)
(* ===================================================================== *)

Lemma recent_mono (ledger : list Attempt.t) (now : Instant)
    (range1 range2 : option string) :
  hoursAgo range1 ≤ hoursAgo range2 →
  recentAttempts now range1 ledger `sublist_of` recentAttempts now range2 ledger.
Proof.
  intros Hh. apply filter_sublist_mono. intros a. unfold threshold. lia.
Qed.

Lemma hoursAgo_default (range : string) :
  range ≠ "1h" → range ≠ "7d" → hoursAgo (Some range) = 24.
Proof.
  intros H1 H7. unfold hoursAgo.
  rewrite (bool_decide_eq_false_2 (range = "1h")) by done.
  destruct (bool_decide (range = "24h")); [done |].
  by rewrite (bool_decide_eq_false_2 (range = "7d")).
Qed.

Lemma recent_same_hours (ledger : list Attempt.t) (now : Instant)
    (range1 range2 : option string) :
  hoursAgo range1 = hoursAgo range2 →
  recentAttempts now range1 ledger = recentAttempts now range2 ledger.
Proof. intros Hh. unfold recentAttempts, threshold. by rewrite Hh. Qed.

Lemma login_stats_run (range : option string) (w : World) :
  exec (login_stats range) w
  = (mkResponse 200
       (StatsData
          (calc_stats
             (recentAttempts (clock w (clock_reads w)) range
                (if fs_ok w (fs_calls w) then login_attempts (disk w) else []))))
       (clock w (S (clock_reads w))),
     mkWorld (disk w) (fs_ok w) (S (fs_calls w)) (clock w)
             (S (S (clock_reads w))) (entropy w) (draws w)).
Proof. unfold login_stats. cbn. by destruct (fs_ok w (fs_calls w)). Qed.

Lemma distinct_le_length (xs : list string) : (distinct xs ≤ length xs)%nat.
Proof.
  unfold distinct. induction xs as [| x xs IH]; cbn [length].
  - by rewrite list_to_set_nil, size_empty.
  - rewrite list_to_set_cons, size_union_alt, size_singleton.
    assert (size (list_to_set xs ∖ ({[x]} : gset string))
            ≤ size (list_to_set xs : gset string))%nat
      by (apply subseteq_size; intros y Hy;
          by apply elem_of_difference in Hy as [? _]).
    lia.
Qed.

Lemma with_status_partition (l : list Attempt.t) :
  (length (with_status SUCCESS l) + length (with_status FAILURE l))%nat
  = length l.
Proof.
  unfold with_status. induction l as [| a l IH]; [done |].
  rewrite !filter_cons.
  destruct (Attempt.attempt_status a);
    [rewrite decide_True, decide_False by done
    | rewrite decide_False, decide_True by done];
    cbn [length]; lia.
Qed.

(** X18.  A time range that is not one of '1h', '24h' and '7d', or no time
    range, is served as '24h': the query is not rejected and, in the same
    state of the server, its answer is the answer to '24h'. *)
Theorem unknown_range_is_24h (w : World) (range : string) :
  range ≠ "1h" →
  range ≠ "7d" →
  exec (login_stats (Some range)) w = exec (login_stats (Some "24h")) w ∧
  exec (login_stats None) w = exec (login_stats (Some "24h")) w.
Proof.
  intros H1 H7. rewrite !login_stats_run.
  rewrite (recent_same_hours _ _ (Some range) (Some "24h"))
    by by apply hoursAgo_default.
  by rewrite (recent_same_hours _ _ None (Some "24h")).
Qed.

Lemma unknown_range_is_24h_witness :
  "30d" ≠ "1h" ∧ "30d" ≠ "7d" ∧
  exec (login_stats (Some "30d")) first_start
  = exec (login_stats (Some "24h")) first_start ∧
  exec (login_stats None) first_start
  = exec (login_stats (Some "24h")) first_start.
Proof.
  split; [discriminate |].
  split; [discriminate |].
  apply (unknown_range_is_24h first_start "30d"); discriminate.
Defined.

(** X19.  The statistics grow with the window: for two time ranges of
    which the first looks back at most as many hours as the second, every
    attempt selected for the first is selected for the second, and each
    number of each bucket of the first is at most that of the second; in
    particular '24h' is within '7d'. *)
Theorem stats_grow_with_window (ledger : list Attempt.t) (now : Instant)
    (range1 range2 : option string) :
  hoursAgo range1 ≤ hoursAgo range2 →
  let recent1 := recentAttempts now range1 ledger in
  let recent2 := recentAttempts now range2 ledger in
  (∀ a, a ∈ recent1 → a ∈ recent2) ∧
  bucket_le (stats_SUCCESS (calc_stats recent1))
            (stats_SUCCESS (calc_stats recent2)) ∧
  bucket_le (stats_FAILURE (calc_stats recent1))
            (stats_FAILURE (calc_stats recent2)).
Proof.
  intros Hh recent1 recent2.
  pose proof (recent_mono ledger now range1 range2 Hh) as Hs.
  split; [| split].
  - intros a Ha. by eapply elem_of_sublist.
  - by apply bucket_sublist.
  - by apply bucket_sublist.
Qed.

Lemma stats_grow_with_window_witness :
  hoursAgo (Some "24h") ≤ hoursAgo (Some "7d") ∧
  let recent1 := recentAttempts 1700000000000 (Some "24h") small_ledger in
  let recent2 := recentAttempts 1700000000000 (Some "7d") small_ledger in
  (∀ a, a ∈ recent1 → a ∈ recent2) ∧
  bucket_le (stats_SUCCESS (calc_stats recent1))
            (stats_SUCCESS (calc_stats recent2)) ∧
  bucket_le (stats_FAILURE (calc_stats recent1))
            (stats_FAILURE (calc_stats recent2)).
Proof.
  split; [by vm_compute |].
  apply (stats_grow_with_window small_ledger 1700000000000
           (Some "24h") (Some "7d")).
  by vm_compute.
Defined.

(** X20.  In the statistics of any set of recent attempts, the counts of
    the two buckets add up to the number of recent attempts, and in each
    bucket the number of distinct addresses and the number of distinct
    user names are at most the count. *)
Theorem stats_are_consistent (recent : list Attempt.t) :
  (count (stats_SUCCESS (calc_stats recent))
   + count (stats_FAILURE (calc_stats recent)))%nat = length recent ∧
  (unique_ips (stats_SUCCESS (calc_stats recent))
   ≤ count (stats_SUCCESS (calc_stats recent)))%nat ∧
  (unique_users (stats_SUCCESS (calc_stats recent))
   ≤ count (stats_SUCCESS (calc_stats recent)))%nat ∧
  (unique_ips (stats_FAILURE (calc_stats recent))
   ≤ count (stats_FAILURE (calc_stats recent)))%nat ∧
  (unique_users (stats_FAILURE (calc_stats recent))
   ≤ count (stats_FAILURE (calc_stats recent)))%nat.
Proof.
  cbn [calc_stats bucket stats_SUCCESS stats_FAILURE count unique_ips
       unique_users].
  split; [apply with_status_partition |].
  repeat split;
    (etrans; [apply distinct_le_length | by rewrite length_fmap]).
Qed.

Lemma ip_reputation_of_disk ip w :
  disk (exec (ip_reputation_of ip) w).2 = disk w.
Proof.
  unfold ip_reputation_of. cbn.
  destruct (fs_ok w (fs_calls w)); cbn;
    [destruct (List.find (same_ip ip) (ip_reputation (disk w))) |]; done.
Qed.

(** X21.  The two analytics endpoints only read: whatever the outcomes of
    the file operations they leave every file as it was and never answer
    with a server error; when the file cannot be read, the statistics are
    all 0 and the address is answered with 404, as if the collection were
    empty. *)
Theorem analytics_only_read (w : World) (range : option string)
    (ip : string) :
  disk (exec (login_stats range) w).2 = disk w ∧
  disk (exec (ip_reputation_of ip) w).2 = disk w ∧
  status_code (exec (login_stats range) w).1 = 200 ∧
  status_code (exec (ip_reputation_of ip) w).1 ∈ [200; 404] ∧
  (fs_ok w (fs_calls w) = false →
   data (exec (login_stats range) w).1 = StatsData no_stats ∧
   status_code (exec (ip_reputation_of ip) w).1 = 404).
Proof.
  rewrite login_stats_run. split; [done |].
  split; [apply ip_reputation_of_disk |]. split; [done |]. split.
  - unfold ip_reputation_of. cbn.
    destruct (fs_ok w (fs_calls w)); cbn;
      [destruct (List.find (same_ip ip) (ip_reputation (disk w))) |]; cbn;
      first [by left | by right; left].
  - intros Hf. unfold ip_reputation_of. cbn. by rewrite Hf.
Qed.

(* ===================================================================== *)
(** * Event Recorder: batches that log nothing *)
(* ===================================================================== *)

Lemma batch_loop_nulls ip sessions n st w :
  exec (batch_loop ip sessions (replicate n JNull) st) w
  = (mkBatchState (st_eventLogs st) (st_loggedCount st)
                  (st_failedCount st + Z.of_nat n), w).
Proof.
  revert st. induction n as [| n IH]; intros st.
  - destruct st as [l c f]. cbn [replicate]. unfold batch_loop. cbn.
    by rewrite Z.add_0_r.
  - cbn [replicate]. unfold batch_loop; fold batch_loop.
    rewrite IH. cbn [st_eventLogs st_loggedCount st_failedCount].
    do 2 f_equal. lia.
Qed.

(** X22.  A batch that logs nothing.  A request without events, or with an
    empty array, is answered with 400 before any file operation.  A batch
    of null entries only is answered, on a storage whose reads and writes
    succeed, with 201, 0 logged events and as many failed events as it has
    entries, and the ledger is written back unchanged. *)
Theorem batch_that_logs_nothing (w : World) (ip : string) (n : nat) :
  healthy w →
  (∀ events, events = None ∨ events = Some [] →
     status_code (exec (log_batch ip events) w).1 = 400 ∧
     data (exec (log_batch ip events) w).1 = Message "No events provided" ∧
     disk (exec (log_batch ip events) w).2 = disk w ∧
     fs_calls (exec (log_batch ip events) w).2 = fs_calls w) ∧
  status_code (exec (log_batch ip (Some (replicate (S n) JNull))) w).1 = 201 ∧
  data (exec (log_batch ip (Some (replicate (S n) JNull))) w).1
  = BatchData 0 (Z.of_nat (S n)) ∧
  disk (exec (log_batch ip (Some (replicate (S n) JNull))) w).2 = disk w.
Proof.
  intros H. split; [by intros events [-> | ->] |].
  unfold log_batch. cbn [replicate]. cbn. rewrite !H. cbn.
  rewrite exec_bind.
  change (JNull :: replicate n JNull) with (replicate (S n) JNull).
  rewrite batch_loop_nulls. cbn. rewrite H. cbn.
  split; [done |]. split; [f_equal; lia |]. by destruct (disk w).
Qed.

Lemma batch_that_logs_nothing_witness :
  healthy first_start ∧
  (∀ events, events = None ∨ events = Some [] →
     status_code (exec (log_batch "203.0.113.7" events) first_start).1 = 400 ∧
     data (exec (log_batch "203.0.113.7" events) first_start).1
     = Message "No events provided" ∧
     disk (exec (log_batch "203.0.113.7" events) first_start).2
     = disk first_start ∧
     fs_calls (exec (log_batch "203.0.113.7" events) first_start).2
     = fs_calls first_start) ∧
  status_code
    (exec (log_batch "203.0.113.7" (Some (replicate (S 2) JNull)))
          first_start).1 = 201 ∧
  data
    (exec (log_batch "203.0.113.7" (Some (replicate (S 2) JNull)))
          first_start).1 = BatchData 0 (Z.of_nat (S 2)) ∧
  disk
    (exec (log_batch "203.0.113.7" (Some (replicate (S 2) JNull)))
          first_start).2 = disk first_start.
Proof.
  split; [apply first_start_healthy |].
  apply (batch_that_logs_nothing first_start "203.0.113.7" 2).
  apply first_start_healthy.
Defined.

(* ===================================================================== *)
(** * The login page *)
(* ===================================================================== *)

Lemma push_capped_length {A} (cap : nat) (x : A) (l : list A) :
  (length l ≤ cap)%nat → (length (push_capped cap x l) ≤ cap)%nat.
Proof.
  intros Hl. unfold push_capped. case_decide as Hc.
  - destruct l as [| y t]; cbn in *; [lia |]. rewrite length_app. cbn. lia.
  - lia.
Qed.

Lemma push_capped_window {A} (cap : nat) (xs l : list A) :
  (length l ≤ cap)%nat →
  foldl (λ l x, push_capped cap x l) l xs
  = drop (length (l ++ xs) - cap) (l ++ xs).
Proof.
  revert l. induction xs as [| x xs IH]; intros l Hl.
  - cbn. rewrite app_nil_r.
    replace (length l - cap)%nat with 0%nat by lia. done.
  - cbn [foldl]. rewrite IH by by apply push_capped_length.
    unfold push_capped. case_decide as Hc.
    + rewrite length_app in Hc. cbn in Hc.
      destruct l as [| y t]; cbn [app tail].
      * cbn in Hc. assert (cap = 0)%nat as -> by lia. cbn.
        by rewrite Nat.sub_0_r.
      * cbn [length] in *. rewrite <- app_assoc. cbn [app].
        rewrite !length_app. cbn [length].
        replace (S (length t + S (length xs)) - cap)%nat
          with (S (length t + (1 + length xs) - cap))%nat by lia.
        cbn [drop]. f_equal; lia.
    + by rewrite <- app_assoc.
Qed.

Lemma verdict_known user_id username password_ password :
  (verdict (Some (User.mk user_id username password_)) password).1 = SUCCESS
  ↔ Some password_ = Some password.
Proof.
  unfold verdict. cbn. case_bool_decide; cbn; split; congruence.
Qed.

Lemma authenticateUser_spec (username password : string) :
  authenticateUser username password = true ↔
  (verdict (find_user initialUsers username) password).1 = SUCCESS.
Proof.
  unfold authenticateUser. rewrite bool_decide_eq_true.
  destruct (decide (username = "admin")) as [-> | H1];
    [| destruct (decide (username = "user1")) as [-> | H2];
       [| destruct (decide (username = "testuser")) as [-> | H3]]].
  - change (validCredentials !! "admin") with (Some "admin123").
    change (find_user initialUsers "admin")
      with (Some (User.mk 1 "admin" "admin123")).
    by rewrite verdict_known.
  - change (validCredentials !! "user1") with (Some "password123").
    change (find_user initialUsers "user1")
      with (Some (User.mk 2 "user1" "password123")).
    by rewrite verdict_known.
  - change (validCredentials !! "testuser") with (Some "test123").
    change (find_user initialUsers "testuser")
      with (Some (User.mk 3 "testuser" "test123")).
    by rewrite verdict_known.
  - unfold validCredentials.
    rewrite !lookup_insert_ne, lookup_empty by done.
    unfold find_user, initialUsers. cbn [List.find User.username].
    rewrite !bool_decide_eq_false_2 by done. by cbn.
Qed.

Lemma authenticateUser_nonempty (username password : string) :
  authenticateUser username password = true → username ≠ "" ∧ password ≠ "".
Proof.
  unfold authenticateUser. rewrite bool_decide_eq_true.
  destruct (decide (username = "admin")) as [-> | H1];
    [| destruct (decide (username = "user1")) as [-> | H2];
       [| destruct (decide (username = "testuser")) as [-> | H3]]].
  - change (validCredentials !! "admin") with (Some "admin123").
    by intros [= <-].
  - change (validCredentials !! "user1") with (Some "password123").
    by intros [= <-].
  - change (validCredentials !! "testuser") with (Some "test123").
    by intros [= <-].
  - unfold validCredentials.
    by rewrite !lookup_insert_ne, lookup_empty by done.
Qed.

(** X23.  The mock authentication of the login page and the server agree:
    on a storage whose reads and writes succeed and whose users.json holds
    the sample users of a first start, the page accepts a username and a
    password exactly when the server answers the login with 200. *)
Theorem page_and_server_accept_the_same (w : World) (ip : string)
    (username password : string) (deviceInfo : option DeviceInfo.t)
    (sessionId : option string) (rememberMe : option bool) :
  healthy w →
  users (disk w) = initialUsers →
  authenticateUser username password = true ↔
  status_code
    (exec (login ip (LoginBody.mk (Some username) (Some password) deviceInfo
                                  sessionId rememberMe)) w).1 = 200.
Proof.
  intros H Hu.
  set (body := LoginBody.mk (Some username) (Some password) deviceInfo
                            sessionId rememberMe).
  destruct (decide (username ≠ "" ∧ password ≠ "")) as [[Hnu Hnp] | Hr].
  - assert (Hv : validated body username password) by done.
    destruct (login_answer w ip body username password H Hv) as [Hs _].
    rewrite Hs, Hu, authenticateUser_spec.
    destruct (verdict (find_user initialUsers username) password).1;
      by split.
  - assert (Hj : rejected body).
    { unfold rejected. cbn.
      destruct (decide (username = "")) as [-> | ?]; [by left |].
      destruct (decide (password = "")) as [-> | ?]; [by right |].
      by destruct Hr. }
    rewrite (rejected_login w ip body Hj). cbn. split; [| done].
    by intros ?%authenticateUser_nonempty.
Qed.

Lemma page_and_server_accept_the_same_witness :
  healthy first_start ∧
  users (disk first_start) = initialUsers ∧
  (authenticateUser "testuser" "test123" = true ↔
   status_code
     (exec (login "203.0.113.7"
              (LoginBody.mk (Some "testuser") (Some "test123") None
                            (Some "session_a") None)) first_start).1 = 200).
Proof.
  split; [apply first_start_healthy |].
  split; [reflexivity |].
  apply (page_and_server_accept_the_same first_start "203.0.113.7"
           "testuser" "test123" None (Some "session_a") None).
  - apply first_start_healthy.
  - reflexivity.
Defined.

Lemma storeLogLocally_length {A} (quota : bool) (entry : A) (item : Stored A) :
  (length (stored_logs item) ≤ 100)%nat →
  (length (stored_logs (storeLogLocally quota entry item)) ≤ 100)%nat.
Proof.
  intros Hl. destruct item as [| | logs], quota; cbn [storeLogLocally stored_logs];
    try done; apply push_capped_length; [cbn; lia | done].
Qed.

(** X24.  The local history of the page is bounded: if the stored array
    has at most 100 entries, it still has at most 100 after any number of
    calls of [storeLogLocally], whether [localStorage.setItem] succeeds or
    throws; an item that does not hold an array is never replaced. *)
Theorem local_logs_are_bounded {A} (entries : list (bool * A))
    (item : Stored A) :
  (length (stored_logs item) ≤ 100)%nat →
  (length (stored_logs (store_all entries item)) ≤ 100)%nat ∧
  (item = Garbage → store_all entries item = Garbage).
Proof.
  revert item. induction entries as [| [quota entry] entries IH];
    intros item Hl; [done |].
  cbn [store_all foldl].
  destruct (IH (storeLogLocally quota entry item)) as [I1 I2];
    [by apply storeLogLocally_length |].
  split; [done |]. intros ->. by apply I2.
Qed.

Lemma local_logs_are_bounded_witness :
  (length (stored_logs (Logs (replicate 100 "PAGE_LOAD"))) ≤ 100)%nat ∧
  (length (stored_logs
             (store_all [(true, "INPUT_FOCUS"); (false, "INPUT_BLUR");
                         (true, "LOGIN_ATTEMPT")]
                        (Logs (replicate 100 "PAGE_LOAD")))) ≤ 100)%nat ∧
  (Logs (replicate 100 "PAGE_LOAD") = Garbage →
   store_all [(true, "INPUT_FOCUS"); (false, "INPUT_BLUR");
              (true, "LOGIN_ATTEMPT")]
             (Logs (replicate 100 "PAGE_LOAD")) = Garbage).
Proof.
  split; [by vm_compute |].
  apply (local_logs_are_bounded
           [(true, "INPUT_FOCUS"); (false, "INPUT_BLUR"); (true, "LOGIN_ATTEMPT")]
           (Logs (replicate 100 "PAGE_LOAD"))).
  by vm_compute.
Defined.

Lemma store_all_cons {A} (e : bool * A) (entries : list (bool * A))
    (item : Stored A) :
  store_all (e :: entries) item
  = store_all entries (storeLogLocally e.1 e.2 item).
Proof. done. Qed.

Lemma store_all_ok {A} (entries : list A) (logs : list A) :
  store_all ((λ e, (true, e)) <$> entries) (Logs logs)
  = Logs (foldl (λ l x, push_capped 100 x l) logs entries).
Proof.
  revert logs. induction entries as [| e entries IH]; intros logs; [done |].
  cbn. apply IH.
Qed.

(** X25.  The local history keeps the most recent entries: starting from a
    missing item, when every [localStorage.setItem] succeeds, the item
    holds after n calls of [storeLogLocally] the last 100 of the n entries
    (all of them when n is at most 100), in the order of the calls. *)
Theorem local_logs_keep_the_last_100 {A} (entry : A) (entries : list A) :
  store_all ((λ e, (true, e)) <$> (entry :: entries)) NoItem
  = Logs (drop (length (entry :: entries) - 100) (entry :: entries)).
Proof.
  rewrite fmap_cons, store_all_cons.
  change (storeLogLocally (true, entry).1 (true, entry).2 NoItem)
    with (Logs [entry]).
  rewrite store_all_ok, push_capped_window by (cbn; lia).
  done.
Qed.
Lemma spaced_tail ts : spaced ts → spaced (tail ts).
Proof. destruct ts as [| t1 [| t2 rest]]; cbn; tauto. Qed.

Lemma spaced_snoc ts t :
  spaced ts → (∀ t', last ts = Some t' → 500 < t - t') → spaced (ts ++ [t]).
Proof.
  induction ts as [| t1 rest IH]; [done |].
  intros Hs Hl. destruct rest as [| t2 rest].
  - cbn. split; [| done]. by apply Hl.
  - cbn in Hs. destruct Hs as [H12 Hs].
    change (500 < t2 - t1 ∧ spaced ((t2 :: rest) ++ [t])).
    split; [done |]. apply IH; [done |].
    intros t' Ht'. apply Hl. by rewrite last_cons_cons.
Qed.

Lemma last_tail_snoc {A} (l : list A) (x : A) :
  ∀ y, last (tail (l ++ [x])) = Some y → y = x.
Proof.
  intros y. destruct l as [| z l]; cbn [app tail]; [done |].
  rewrite last_snoc. congruence.
Qed.

Lemma on_mousemove_ok x y now m : mouse_ok m → mouse_ok (on_mousemove x y now m).
Proof.
  intros (Hl & Hs & Hlast). unfold on_mousemove.
  case_decide as Hd; [| done].
  split; [by apply push_capped_length |]. cbn.
  assert (Hsn : spaced (Move.timestamp <$> (mouseMovements m ++ [Move.mk x y now]))).
  { rewrite fmap_app. apply spaced_snoc; [done |].
    intros t' Ht'. rewrite (Hlast t' Ht'). done. }
  unfold push_capped. case_decide.
  - split.
    + rewrite fmap_tail. by apply spaced_tail.
    + intros t. rewrite fmap_tail, fmap_app.
      change (Move.timestamp <$> [Move.mk x y now]) with [now].
      apply last_tail_snoc.
  - split; [done |]. intros t. rewrite fmap_app.
    change (Move.timestamp <$> [Move.mk x y now]) with [now].
    rewrite last_snoc. congruence.
Qed.

Lemma track_mouse_ok events m : mouse_ok m → mouse_ok (track_mouse events m).
Proof.
  revert m. induction events as [| [[x y] now] events IH]; intros m Hm; [done |].
  cbn. by apply IH, on_mousemove_ok.
Qed.

Lemma elem_of_push_capped {A} (cap : nat) (x y : A) (l : list A) :
  y ∈ push_capped cap x l → y ∈ l ∨ y = x.
Proof.
  unfold push_capped. intros Hy.
  assert (Hin : y ∈ l ++ [x]).
  { case_decide; [| done].
    destruct (l ++ [x]) as [| z t]; [done |]. by right. }
  apply elem_of_app in Hin as [? | ?%list_elem_of_singleton]; auto.
Qed.

Lemma track_mouse_recorded events m mv :
  mv ∈ mouseMovements (track_mouse events m) →
  mv ∈ mouseMovements m ∨
  (Move.x mv, Move.y mv, Move.timestamp mv) ∈ events.
Proof.
  revert m. induction events as [| [[x y] now] events IH]; intros m; [by left |].
  cbn [track_mouse foldl]. intros Hm.
  apply IH in Hm as [Hm | Hm]; [| right; by right].
  unfold on_mousemove in Hm. cbn in Hm. case_decide; [| by left].
  cbn in Hm. apply elem_of_push_capped in Hm as [? | ->]; [by left |].
  right. by left.
Qed.

(** X26.  The mouse tracker throttles and bounds its history: whatever the
    movements of the mouse and the values of the clock, it holds at most
    20 movements, each of them a movement that occurred, and the recorded
    movements are more than 500 ms apart, each from the next. *)
Theorem mouse_history_is_throttled (events : list (Z * Z * Z)) (loaded : Z) :
  let m := track_mouse events (mkMouse [] loaded) in
  (length (mouseMovements m) ≤ 20)%nat ∧
  spaced (Move.timestamp <$> mouseMovements m) ∧
  ∀ mv, mv ∈ mouseMovements m →
        (Move.x mv, Move.y mv, Move.timestamp mv) ∈ events.
Proof.
  intros m.
  destruct (track_mouse_ok events (mkMouse [] loaded)) as (Hl & Hs & _);
    [unfold mouse_ok; cbn; repeat split; [lia | done] |].
  split; [done |]. split; [done |].
  intros mv Hmv. apply track_mouse_recorded in Hmv as [Hmv | Hmv]; [| done].
  by apply elem_of_nil in Hmv.
Qed.

Lemma track_keys_window events l :
  (length l ≤ 50)%nat →
  track_keys events l
  = drop (length (l ++ (recorded_key <$> events)) - 50)
         (l ++ (recorded_key <$> events)).
Proof.
  intros Hl. rewrite <- push_capped_window by done.
  unfold track_keys. revert l Hl.
  induction events as [| [key now] events IH]; intros l Hl; [done |].
  cbn [foldl fmap list_fmap]. rewrite IH; [done |].
  by apply push_capped_length.
Qed.

(** X27.  The keyboard tracker records no key but Enter: after any
    sequence of key presses, its history is the last 50 presses, each
    reduced to its time and to 'Enter' or 'Key', so that it has at most 50
    entries and two sequences of presses that differ only by keys other
    than Enter leave the same history. *)
Theorem keys_are_not_recorded (events : list (string * Z)) :
  track_keys events [] = drop (length events - 50) (recorded_key <$> events) ∧
  (length (track_keys events []) ≤ 50)%nat ∧
  ∀ p, p ∈ track_keys events [] → KeyPress.key p ∈ ["Enter"; "Key"].
Proof.
  assert (E : track_keys events []
              = drop (length events - 50) (recorded_key <$> events)).
  { rewrite track_keys_window by (cbn; lia). cbn [app].
    by rewrite length_fmap. }
  split; [done |]. rewrite E. split.
  - rewrite length_drop, length_fmap. lia.
  - intros p Hp%subseteq_drop%list_elem_of_fmap.
    destruct Hp as ([key now] & -> & _). unfold recorded_key. cbn.
    case_bool_decide; [by left | by right; left].
Qed.

Lemma devtools_log_alternates checks open :
  alternates open (devtools_log checks open).
Proof.
  revert open. induction checks as [| [[[ow iw] oh] ih] checks IH];
    intros open; [done |].
  cbn [devtools_log fst snd]. unfold devtools_check.
  destruct (bool_decide (160 < ow - iw) || bool_decide (160 < oh - ih)),
    open; cbn; auto.
Qed.

(** X28.  The console detector logs transitions only: along any sequence
    of measurements of the window, starting with the console closed, the
    logged events alternate, DEVTOOLS_OPENED first, and no event is logged
    twice in a row. *)
Theorem devtools_events_alternate (checks : list (Z * Z * Z * Z)) :
  alternates false (devtools_log checks false).
Proof. apply devtools_log_alternates. Qed.
